(** * Tungsten: the standalone renderer front end and the bidirectional
      path tracer's estimator core.

    Part I embeds [src/tungsten/Shared.hpp] ([RendererStatus::toJson],
    [StandaloneRenderer::renderScene], [StandaloneRenderer::frameBuffer]).
    Part II models the bidirectional path tracer, of which the repository
    carries only the class declaration
    ([core/integrators/bidirectional_path_tracer/BidirectionalPathTracer.hpp]). *)

From Stdlib Require Import ZArith QArith Qcanon String List Lia Bool DecimalString.
From stdpp Require Import base tactics option list.

Import ListNotations.
#[local] Set Warnings "-register-all".
Local Open Scope string_scope.
Local Open Scope Z_scope.
Local Open Scope list_scope.

(** ** Part I: [src/tungsten/Shared.hpp] *)

Module Shared.

(** [Path] is declared in [io/Path.hpp]; only [asString] is used here. *)
Record Path := mkPath { asString : string }.

(** The slice of [rapidjson::Value] that [toJson] builds.  An object keeps
    its members in insertion order, duplicates included. *)
Inductive Value : Type :=
| kString (s : string)
| kNumber (n : Z)
| kArray (elems : list Value)
| kObject (members : list (string * Value)).

Definition AddMember (name : string) (v : Value) (obj : Value) : Value :=
  match obj with
  | kObject ms => kObject (ms ++ [(name, v)])
  | other => other
  end.

Definition PushBack (v : Value) (arr : Value) : Value :=
  match arr with
  | kArray es => kArray (es ++ [v])
  | other => other
  end.

Fixpoint FindMember (name : string) (ms : list (string * Value)) : option Value :=
  match ms with
  | [] => None
  | (k, v) :: rest => if String.eqb k name then Some v else FindMember name rest
  end.

Definition HasMember (name : string) (ms : list (string * Value)) : bool :=
  match FindMember name ms with Some _ => true | None => false end.

(** [enum RenderState { STATE_LOADING, STATE_RENDERING }]: an unscoped
    enumeration, kept as its integer so that the [default] branch of
    [renderStateToString] stays reachable. *)
Definition RenderState := Z.
Definition STATE_LOADING : RenderState := 0.
Definition STATE_RENDERING : RenderState := 1.

Definition renderStateToString (state : RenderState) : string :=
  if (state =? STATE_LOADING)%Z then "loading"
  else if (state =? STATE_RENDERING)%Z then "rendering"
  else "unknown".

Record RendererStatus := mkStatus {
  state : RenderState;
  currentSpp : Z;
  nextSpp : Z;
  totalSpp : Z;
  completedScenes : list Path;
  currentScene : Path;
  queuedScenes : list Path
}.

(** [std::vector::empty] / [std::deque::empty]. *)
Definition empty {A} (l : list A) : bool :=
  match l with [] => true | _ => false end.

(** The range-for loops of [toJson]: one [PushBack] per path, in order. *)
Definition pathArray (ps : list Path) : Value :=
  fold_left (fun v p => PushBack (kString (asString p)) v) ps (kArray []).

Definition toJson (st : RendererStatus) : Value :=
  let result := kObject [] in
  let result := AddMember "state" (kString (renderStateToString (state st))) result in
  let result := AddMember "current_spp" (kNumber (currentSpp st)) result in
  let result := AddMember "next_spp" (kNumber (nextSpp st)) result in
  let result := AddMember "total_spp" (kNumber (totalSpp st)) result in
  let result := AddMember "current_scene" (kString (asString (currentScene st))) result in
  let result :=
    if negb (empty (completedScenes st))
    then AddMember "completed_scenes" (pathArray (completedScenes st)) result
    else result in
  let result :=
    if negb (empty (queuedScenes st))
    then AddMember "queued_scenes" (pathArray (queuedScenes st)) result
    else result in
  result.

(** *** Collaborators of [StandaloneRenderer]

    [Scene], [TraceableScene] with its [Integrator], [Camera], [Timer],
    [CliParser] and the helpers of [math/] live in headers that this file
    only includes.  They enter as one record of operations.  An operation
    that can throw returns a [res]. *)

Inductive exn : Type :=
| runtime_error (what : string)     (* [std::runtime_error] and its subclasses *)
| other_exception.                  (* anything a [catch (std::runtime_error &)] misses *)

Inductive res (A : Type) : Type :=
| Ok (a : A)
| Raise (e : exn).
Arguments Ok {A} a.
Arguments Raise {A} e.

Record Vec2 := mkVec2 { vx : Z; vy : Z }.
Record Vec3 (A : Type) := mkVec3 { c0 : A; c1 : A; c2 : A }.
Arguments mkVec3 {A} _ _ _.
Arguments c0 {A} _.
Arguments c1 {A} _.
Arguments c2 {A} _.

Definition vmap {A B} (f : A -> B) (v : Vec3 A) : Vec3 B :=
  mkVec3 (f (c0 v)) (f (c1 v)) (f (c2 v)).

Record CliParser := mkParser {
  operands : list string;
  isPresent : Z -> bool;
  param : Z -> string
}.

Record Env := mkEnv {
  (* io/Scene.hpp *)
  Scene : Type;
  Scene_load : Path -> res Scene;
  loadResources : Scene -> res Scene;
  spp : Scene -> Z;
  checkpointInterval : Scene -> Z;
  enableResumeRender : Scene -> bool;
  setOutputDirectory : Path -> Scene -> Scene;
  (* renderer/TraceableScene.hpp and the integrator it owns *)
  TraceableScene : Type;
  makeTraceable : Scene -> res TraceableScene;
  resumeRender : Scene -> TraceableScene -> res (bool * TraceableScene);
  done : TraceableScene -> bool;
  integratorCurrentSpp : TraceableScene -> Z;
  integratorNextSpp : TraceableScene -> Z;
  renderPass : TraceableScene -> res TraceableScene;   (* startRender; waitForCompletion *)
  saveCheckpoint : TraceableScene -> res TraceableScene;
  saveRenderResumeData : Scene -> TraceableScene -> res TraceableScene;
  saveOutputs : TraceableScene -> res TraceableScene;
  (* Timer.hpp: what the timers read, by round of the render loop *)
  double : Type;
  dzero : double;
  dadd : double -> double -> double;
  exceeds : double -> Z -> bool;        (* [elapsed > seconds] *)
  checkpointTimerElapsed : nat -> double;
  ioTimerElapsed : nat -> double;
  timerElapsed : double;
  (* [formatTime] of Shared.hpp itself prints a [double]; only the fact that
     it returns some text matters below *)
  formatTime : double -> string;
  (* cameras/Camera.hpp and math/ *)
  float : Type;
  cameraResolution : Scene -> Vec2;
  cameraGet : Scene -> Z -> Z -> Vec3 float;
  fmul255 : float -> float;             (* [* 255.0f] *)
  float_to_int : float -> Z;            (* the conversion of [Vec3i(Vec3f)] *)
  clamp : Z -> Z -> Z -> Z
}.

Definition OPT_CHECKPOINTS : Z := 0.
Definition OPT_THREADS : Z := 1.
Definition OPT_VERSION : Z := 2.
Definition OPT_HELP : Z := 3.
Definition OPT_RESTART : Z := 4.
Definition OPT_OUTPUT_DIRECTORY : Z := 5.

Definition uint32 (z : Z) : Z := z mod 2 ^ 32.
Definition int32 (z : Z) : Z := (z + 2 ^ 31) mod 2 ^ 32 - 2 ^ 31.
Definition uint8 (z : Z) : Z := z mod 2 ^ 8.

(** [Vec2u::product]. *)
Definition product (v : Vec2) : Z := uint32 (vx v * vy v).

(** How a member function ends: normally, by an exception, or not within
    the rounds granted to the render loop. *)
Inductive outcome (A : Type) : Type :=
| Done (a : A)
| Thrown (e : exn)
| Unfinished.
Arguments Done {A} a.
Arguments Thrown {A} e.
Arguments Unfinished {A}.

(** A cell of a [new Vec3c[n]] array: indeterminate until it is assigned. *)
Abbreviation cell := (option (Vec3 Z)).

Section Renderer.
Variable E : Env.

Record StandaloneRenderer := mkRenderer {
  _parser : CliParser;
  _logStream : list string;                  (* the lines written, oldest first *)
  _checkpointInterval : Z;
  _threadCount : Z;
  _outputDirectory : Path;
  _scene : option (Scene E);
  _flattenedScene : option (TraceableScene E);
  _status : RendererStatus
}.

(** **** [frameBuffer] *)

Definition newArray (n : Z) : list cell := replicate (Z.to_nat n) None.

(** [ldr[i] = v]; writing past the allocation has no defined behaviour. *)
Definition store (ldr : list cell) (i : Z) (v : Vec3 Z) : option (list cell) :=
  if (0 <=? i) && (i <? Z.of_nat (length ldr))
  then Some (<[Z.to_nat i := Some v]> ldr)
  else None.

(** [Vec3c(clamp(Vec3i(camera->get(x, y)*255.0f), Vec3i(0), Vec3i(255)))]. *)
Definition ldrPixel (sc : Scene E) (x y : Z) : Vec3 Z :=
  let scaled := vmap (fmul255 E) (cameraGet E sc x y) in
  let asInt := vmap (float_to_int E) scaled in
  let clamped := vmap (fun c => clamp E c 0 255) asInt in
  vmap uint8 clamped.

(** [for (uint32 x = ...; x < res.x(); ++x)] with [todo] rounds left. *)
Fixpoint rowLoop (sc : Scene E) (res : Vec2) (y : Z) (todo : nat) (x : Z)
    (ldr : list cell) : option (list cell) :=
  match todo with
  | O => Some ldr
  | S todo' =>
      match store ldr (uint32 (x + uint32 (y * vx res))) (ldrPixel sc x y) with
      | Some ldr' => rowLoop sc res y todo' (x + 1) ldr'
      | None => None
      end
  end.

(** [for (uint32 y = ...; y < res.y(); ++y)] with [todo] rounds left. *)
Fixpoint imageLoop (sc : Scene E) (res : Vec2) (todo : nat) (y : Z)
    (ldr : list cell) : option (list cell) :=
  match todo with
  | O => Some ldr
  | S todo' =>
      match rowLoop sc res y (Z.to_nat (vx res)) 0 ldr with
      | Some ldr' => imageLoop sc res todo' (y + 1) ldr'
      | None => None
      end
  end.

Inductive frame : Type :=
| Nullptr
| Buffer (ldr : list cell)
| OutOfBounds.                     (* a write past the end of [ldr] *)

(** Returns the pointer and the value left in the [resolution] reference. *)
Definition frameBuffer (r : StandaloneRenderer) (resolution : Vec2) : frame * Vec2 :=
  match _scene r, _flattenedScene r with
  | Some sc, Some _ =>
      let res := cameraResolution E sc in
      let ldr := newArray (product res) in
      match imageLoop sc res (Z.to_nat (vy res)) 0 ldr with
      | Some ldr' => (Buffer ldr', mkVec2 (int32 (vx res)) (int32 (vy res)))
      | None => (OutOfBounds, resolution)
      end
  | _, _ => (Nullptr, resolution)
  end.

(** **** [renderScene]

    A computation changes the renderer and ends with an [outcome]. *)

Definition M (A : Type) : Type :=
  StandaloneRenderer -> outcome A * StandaloneRenderer.

Definition ret {A} (a : A) : M A := fun r => (Done a, r).

Definition bind {A B} (m : M A) (k : A -> M B) : M B :=
  fun r =>
    match m r with
    | (Done a, r') => k a r'
    | (Thrown e, r') => (Thrown e, r')
    | (Unfinished, r') => (Unfinished, r')
    end.

Notation "x <- m ;; k" := (bind m (fun x => k))
  (at level 100, m at next level, right associativity).
Notation "m ;;; k" := (bind m (fun _ => k))
  (at level 100, right associativity).

(** A call into a collaborator. *)
Definition call {A} (x : res A) : M A :=
  fun r => match x with Ok a => (Done a, r) | Raise e => (Thrown e, r) end.

Definition modify (f : StandaloneRenderer -> StandaloneRenderer) : M unit :=
  fun r => (Done tt, f r).

Definition when (b : bool) (m : M unit) : M unit := if b then m else ret tt.

Definition set_logStream (l : list string) (r : StandaloneRenderer) :=
  mkRenderer (_parser r) l (_checkpointInterval r) (_threadCount r)
             (_outputDirectory r) (_scene r) (_flattenedScene r) (_status r).
Definition set_checkpointInterval (n : Z) (r : StandaloneRenderer) :=
  mkRenderer (_parser r) (_logStream r) n (_threadCount r)
             (_outputDirectory r) (_scene r) (_flattenedScene r) (_status r).
Definition set_scene (sc : option (Scene E)) (r : StandaloneRenderer) :=
  mkRenderer (_parser r) (_logStream r) (_checkpointInterval r) (_threadCount r)
             (_outputDirectory r) sc (_flattenedScene r) (_status r).
Definition set_flattenedScene (fl : option (TraceableScene E)) (r : StandaloneRenderer) :=
  mkRenderer (_parser r) (_logStream r) (_checkpointInterval r) (_threadCount r)
             (_outputDirectory r) (_scene r) fl (_status r).
Definition set_status (st : RendererStatus) (r : StandaloneRenderer) :=
  mkRenderer (_parser r) (_logStream r) (_checkpointInterval r) (_threadCount r)
             (_outputDirectory r) (_scene r) (_flattenedScene r) st.

Definition writeLogLine (s : string) : M unit :=
  modify (fun r => set_logStream (_logStream r ++ [s]) r).

(** [%d] of [tfm::format]. *)
Definition showInt (n : Z) : string := NilZero.string_of_int (Z.to_int n).

Definition newline : string := String (Ascii.ascii_of_nat 10) EmptyString.

Definition loaderError (scene : Path) (what : string) : string :=
  "Scene loader for file '" ++ asString scene
    ++ "' encountered an unrecoverable error: " ++ newline ++ what.

Definition loadingLine (scene : Path) : string :=
  "Loading scene '" ++ asString scene ++ "'...".

Definition rendererError (scene : Path) (what : string) : string :=
  "Renderer for file '" ++ asString scene
    ++ "' encountered an unrecoverable error: " ++ newline ++ what.

(** The statements under [_statusMutex] at the head of [renderScene]. *)
Definition startLoading (front : Path) (rest : list Path) (st : RendererStatus) :=
  mkStatus STATE_LOADING 0 0 0 (completedScenes st) front rest.

Definition set_totalSpp (n : Z) (st : RendererStatus) :=
  mkStatus (state st) (currentSpp st) (nextSpp st) n
           (completedScenes st) (currentScene st) (queuedScenes st).

Definition startRound (cur next : Z) (st : RendererStatus) :=
  mkStatus STATE_RENDERING cur next (totalSpp st)
           (completedScenes st) (currentScene st) (queuedScenes st).

Definition push_completed (p : Path) (st : RendererStatus) :=
  mkStatus (state st) (currentSpp st) (nextSpp st) (totalSpp st)
           (completedScenes st ++ [p]) (currentScene st) (queuedScenes st).

(** The body of the first [try]. *)
Definition loadScene (currentScene : Path) : M (Scene E) :=
  sc <- call (Scene_load E currentScene) ;;
  modify (set_scene (Some sc)) ;;;
  sc <- call (loadResources E sc) ;;
  modify (set_scene (Some sc)) ;;;
  ret sc.

(** [while (!integrator.done()) { ... }], [round] rounds in, with [fuel]
    rounds granted.  The integrator is owned by [_flattenedScene].
    [_checkpointInterval*60] is a product of two [int]s, with its
    wrap-around written out. *)
Fixpoint renderLoop (fuel round : nat) (maxSpp : Z) (sc : Scene E)
    (integrator : TraceableScene E) (totalElapsed : double E)
    : M (TraceableScene E) :=
  if done E integrator then ret integrator
  else
    match fuel with
    | O => fun r => (Unfinished, r)
    | S fuel' =>
        modify (fun r => set_status (startRound (integratorCurrentSpp E integrator)
                                                (integratorNextSpp E integrator)
                                                (_status r)) r) ;;;
        integrator <- call (renderPass E integrator) ;;
        modify (set_flattenedScene (Some integrator)) ;;;
        writeLogLine ("Completed " ++ showInt (integratorCurrentSpp E integrator)
                        ++ "/" ++ showInt maxSpp ++ " spp") ;;;
        fun r =>
          if (0 <? _checkpointInterval r)
             && exceeds E (checkpointTimerElapsed E round)
                        (int32 (_checkpointInterval r * 60))
          then
            (let totalElapsed := dadd E totalElapsed (checkpointTimerElapsed E round) in
             writeLogLine ("Saving checkpoint after " ++ formatTime E totalElapsed) ;;;
             integrator <- call (saveCheckpoint E integrator) ;;
             modify (set_flattenedScene (Some integrator)) ;;;
             integrator <- (if enableResumeRender E sc
                            then call (saveRenderResumeData E sc integrator)
                            else ret integrator) ;;
             modify (set_flattenedScene (Some integrator)) ;;;
             writeLogLine ("Saving checkpoint took "
                             ++ formatTime E (ioTimerElapsed E round)) ;;;
             renderLoop fuel' (S round) maxSpp sc integrator totalElapsed) r
          else renderLoop fuel' (S round) maxSpp sc integrator totalElapsed r
    end.

(** The resume block of the second [try]. *)
Definition resume (restart : bool) (sc : Scene E) (integrator : TraceableScene E)
    : M (TraceableScene E) :=
  if enableResumeRender E sc && negb restart
  then
    writeLogLine "Trying to resume render from saved state... " ;;;
    resumed <- call (resumeRender E sc integrator) ;;
    modify (set_flattenedScene (Some (snd resumed))) ;;;
    (if fst resumed
     then writeLogLine "Resume successful"
     else writeLogLine "Resume unsuccessful. Starting from 0 spp") ;;;
    ret (snd resumed)
  else ret integrator.

(** The end of the second [try], from [timer.stop()] on. *)
Definition finish (currentScene : Path) (sc : Scene E) (integrator : TraceableScene E)
    : M unit :=
  writeLogLine ("Finished render. Render time " ++ formatTime E (timerElapsed E)) ;;;
  integrator <- call (saveOutputs E integrator) ;;
  modify (set_flattenedScene (Some integrator)) ;;;
  integrator <- (if enableResumeRender E sc
                 then call (saveRenderResumeData E sc integrator)
                 else ret integrator) ;;
  modify (set_flattenedScene (Some integrator)) ;;;
  modify (fun r => set_status (push_completed currentScene (_status r)) r).

(** The body of the second [try].  ([DirectoryChange] only moves the
    working directory, which is not part of this state.) *)
Definition renderBody (fuel : nat) (currentScene : Path) (sc : Scene E) : M unit :=
  fun r =>
    (let sc := if isPresent (_parser r) OPT_OUTPUT_DIRECTORY
               then setOutputDirectory E (_outputDirectory r) sc else sc in
     modify (set_scene (Some sc)) ;;;
     let maxSpp := spp E sc in
     integrator <- call (makeTraceable E sc) ;;
     modify (set_flattenedScene (Some integrator)) ;;;
     when (negb (isPresent (_parser r) OPT_CHECKPOINTS))
          (modify (set_checkpointInterval (checkpointInterval E sc))) ;;;
     integrator <- resume (isPresent (_parser r) OPT_RESTART) sc integrator ;;
     writeLogLine "Starting render..." ;;;
     integrator <- renderLoop fuel 0 maxSpp sc integrator (dzero E) ;;
     finish currentScene sc integrator) r.

Definition resetScenes : M unit :=
  modify (set_flattenedScene None) ;;;
  modify (set_scene None).

Definition renderScene (fuel : nat) : M bool :=
  fun r =>
    match queuedScenes (_status r) with
    | [] => (Done false, r)
    | front :: rest =>
        let currentScene := front in
        let r := set_status (startLoading front rest (_status r)) r in
        (writeLogLine (loadingLine currentScene) ;;;
         fun r =>
           match loadScene currentScene r with
           | (Thrown (runtime_error what), r) =>
               (writeLogLine (loaderError currentScene what) ;;;
                modify (set_scene None) ;;;
                ret true) r
           | (Thrown e, r) => (Thrown e, r)
           | (Unfinished, r) => (Unfinished, r)
           | (Done sc, r) =>
               (modify (fun r => set_status (set_totalSpp (spp E sc) (_status r)) r) ;;;
                (fun r =>
                   match renderBody fuel currentScene sc r with
                   | (Thrown (runtime_error what), r) =>
                       writeLogLine (rendererError currentScene what) r
                   | other => other
                   end) ;;;
                resetScenes ;;;
                ret true) r
           end) r
    end.

End Renderer.

Arguments _parser {E} _.
Arguments _logStream {E} _.
Arguments _checkpointInterval {E} _.
Arguments _threadCount {E} _.
Arguments _outputDirectory {E} _.
Arguments _scene {E} _.
Arguments _flattenedScene {E} _.
Arguments _status {E} _.
Arguments mkRenderer {E} _ _ _ _ _ _ _ _.

End Shared.

(** ** The vocabulary of the statements about [Shared.hpp] *)

Module Props.
Import Shared.

Section Props.
Variable E : Env.

(** What the helper [clamp] of [math/MathUtil.hpp] is relied on for. *)
Definition clamp_within : Prop :=
  forall v lo hi : Z, lo <= hi -> lo <= clamp E v lo hi <= hi.

Definition channel_ok (c : Z) : Prop := 0 <= c <= 255.

Definition pixel_ok (p : Vec3 Z) : Prop :=
  channel_ok (c0 p) /\ channel_ok (c1 p) /\ channel_ok (c2 p).

(** The clamped integer colour, before the narrowing to [uint8]. *)
Definition clampedPixel (sc : Scene E) (x y : Z) : Vec3 Z :=
  vmap (fun f => clamp E (float_to_int E (fmul255 E f)) 0 255) (cameraGet E sc x y).

(** [n] cells of row [y], from column [x0] on. *)
Definition rowCells (sc : Scene E) (y : Z) (x0 n : nat) : list cell :=
  map (fun x => Some (ldrPixel E sc (Z.of_nat x) y)) (seq x0 n).

(** [n] rows of [w] cells, from row [y0] on. *)
Definition imageCells (sc : Scene E) (w : nat) (y0 n : nat) : list cell :=
  flat_map (fun y => rowCells sc (Z.of_nat y) 0 w) (seq y0 n).

(** The collaborators throw nothing but [std::runtime_error]. *)
Definition only_runtime_errors : Prop :=
  (forall p, Scene_load E p <> Raise other_exception)
  /\ (forall sc, loadResources E sc <> Raise other_exception)
  /\ (forall sc, makeTraceable E sc <> Raise other_exception)
  /\ (forall sc i, resumeRender E sc i <> Raise other_exception)
  /\ (forall i, renderPass E i <> Raise other_exception)
  /\ (forall i, saveCheckpoint E i <> Raise other_exception)
  /\ (forall sc i, saveRenderResumeData E sc i <> Raise other_exception)
  /\ (forall i, saveOutputs E i <> Raise other_exception).

(** The integrator gets done: every pass of an unfinished integrator
    lowers [remaining], and saving does not raise it. *)
Definition integrator_finishes (remaining : TraceableScene E -> nat) : Prop :=
  (forall i i', done E i = false -> renderPass E i = Ok i' ->
                (remaining i' < remaining i)%nat)
  /\ (forall i i', saveCheckpoint E i = Ok i' -> (remaining i' <= remaining i)%nat)
  /\ (forall sc i i', saveRenderResumeData E sc i = Ok i' ->
                      (remaining i' <= remaining i)%nat).

(** What the render loop and the code around it leave alone. *)
Definition steady (r r' : StandaloneRenderer E) : Prop :=
  queuedScenes (_status r') = queuedScenes (_status r)
  /\ currentScene (_status r') = currentScene (_status r)
  /\ completedScenes (_status r') = completedScenes (_status r).

(** A computation that ended, and not by an exception other than
    [std::runtime_error]. *)
Definition ended {A} (r : StandaloneRenderer E)
    (res : outcome A * StandaloneRenderer E) : Prop :=
  steady r (snd res)
  /\ match fst res with
     | Done _ => True
     | Thrown e => e <> other_exception
     | Unfinished => False
     end.

(** How the second [try] block leaves the status. *)
Definition rendered (p : Path) (r : StandaloneRenderer E)
    (res : outcome unit * StandaloneRenderer E) : Prop :=
  queuedScenes (_status (snd res)) = queuedScenes (_status r)
  /\ currentScene (_status (snd res)) = currentScene (_status r)
  /\ match fst res with
     | Done _ => completedScenes (_status (snd res)) = completedScenes (_status r) ++ [p]
     | Thrown e =>
         e <> other_exception
         /\ completedScenes (_status (snd res)) = completedScenes (_status r)
     | Unfinished => False
     end.

(** The scene the second [try] renders: [sc] as loaded, with the output
    directory of the command line when [-o] is present. *)
Definition outputScene (r : StandaloneRenderer E) (sc : Scene E) : Scene E :=
  if isPresent (_parser r) OPT_OUTPUT_DIRECTORY
  then setOutputDirectory E (_outputDirectory r) sc else sc.

(** The renderer at the head of the second [try], when [renderScene] was
    called on [r] with the queue [front :: rest] and loading gave [sc]. *)
Definition atRender (front : Path) (rest : list Path) (sc : Scene E)
    (r : StandaloneRenderer E) : StandaloneRenderer E :=
  let r := set_status E (startLoading front rest (_status r)) r in
  let r := set_logStream E (_logStream r ++ [loadingLine front]) r in
  let r := set_scene E (Some sc) r in
  set_status E (set_totalSpp (spp E sc) (_status r)) r.

(** The block under [_sceneMutex] at the end of [renderScene]. *)
Definition released (r : StandaloneRenderer E) : StandaloneRenderer E :=
  set_scene E None (set_flattenedScene E None r).

End Props.

Arguments clampedPixel {E} _ _ _.
Arguments rowCells {E} _ _ _ _.
Arguments imageCells {E} _ _ _ _.
Arguments steady {E} _ _.
Arguments ended {E A} _ _.
Arguments rendered {E} _ _ _.
Arguments outputScene {E} _ _.
Arguments atRender {E} _ _ _ _.
Arguments released {E} _.

End Props.

(** ** Part II: the estimator core of the bidirectional path tracer

    [BidirectionalPathTracer.hpp] declares [traceCameraPath],
    [traceLightPath] and [traceSample]; their bodies, [PathVertex] and the
    splat buffer are in files that are not part of the sources.  The two
    pieces below are written from sections 4.2, 4.4 and 7 of the
    specification, over exact rationals. *)

Module Bdpt.
Import Shared.
Local Open Scope Qc_scope.

Definition sumQc (l : list Qc) : Qc := foldr Qcplus 0 l.

(** A transport strategy [(s, t)]: [s] vertices taken from the camera
    path, [t] from the light path. *)
Definition Strategy : Type := nat * nat.

(** Modelled from the spec: the enumeration inside the Connection & MIS
    Evaluator, which is not in the sources.  Every [(s', t')] with
    [s' + t' = total]. *)
Definition alternatives (total : nat) : list Strategy :=
  map (fun s => (s, total - s)%nat) (seq 0 (S total)).

Section MisWeight.
(** Which alternatives could have produced the same physical path. *)
Variable valid : Strategy -> bool.
(** The sampling density of the combined path under each strategy. *)
Variable density : Strategy -> Qc.

Definition validAlternatives (total : nat) : list Strategy :=
  List.filter valid (alternatives total).

(** The density of every valid alternative relative to the one used. *)
Definition relativeDensities (total : nat) (used : Strategy) : list Qc :=
  map (fun a => density a / density used) (validAlternatives total).

(** Modelled from the spec: the body of the Connection & MIS Evaluator is
    not in the sources.  The balance heuristic of section 4.4: for the fixed
    total length, enumerate every alternative, take the ratio of its
    sampling density to the density of the strategy used, and weight
    inversely to the sum of these relative densities. *)
Definition misWeight (total : nat) (used : Strategy) : Qc :=
  / sumQc (relativeDensities total used).

End MisWeight.

(** RGB values. *)
Definition Vec3f : Type := Vec3 Qc.

Definition vzero : Vec3f := mkVec3 0 0 0.
Definition vadd (a b : Vec3f) : Vec3f :=
  mkVec3 (c0 a + c0 b) (c1 a + c1 b) (c2 a + c2 b).
Definition vscale (k : Qc) (a : Vec3f) : Vec3f := vmap (Qcmult k) a.
Definition vdiv (a : Vec3f) (k : Qc) : Vec3f := vmap (fun c => c / k) a.
Definition vsum (l : list Vec3f) : Vec3f := foldr vadd vzero l.

(** Modelled from the spec: the path constructors are not in the sources.
    Section 4.2: the continuation probability is [min(1, luminance)] of the
    throughput. *)
Definition continuationProbability (luminance : Qc) : Qc :=
  if decide (luminance ≤ 1) then luminance else 1.

(** Modelled from the spec: the path constructors are not in the sources.
    The Russian roulette step of section 4.2, for the random number [u] the
    sampler hands out: the path survives when [u] falls below the
    continuation probability [p], and then the throughput is divided by
    [p]; otherwise the walk terminates. *)
Definition roulette (p u : Qc) (throughput : Vec3f) : option Vec3f :=
  if decide (u < p) then Some (vdiv throughput p) else None.

(** What the step leaves to be carried on: nothing once terminated. *)
Definition carried (o : option Vec3f) : Vec3f :=
  match o with Some t => t | None => vzero end.

(** A finite distribution: outcomes with their probabilities. *)
Definition expectation (outcomes : list (Qc * Vec3f)) : Vec3f :=
  foldr (fun o acc => vadd (vscale (fst o) (snd o)) acc) vzero outcomes.

(** The two outcomes of the step: survival, which has probability [p]
    and is what any [u < p] gives, and termination. *)
Definition rouletteOutcomes (p : Qc) (throughput : Vec3f) : list (Qc * Vec3f) :=
  [(p, carried (Some (vdiv throughput p))); (1 - p, carried None)].

(** The mean of the step over the [n] equally likely values [i/n] of [u]. *)
Definition gridMean (n : nat) (p : Qc) (throughput : Vec3f) : Vec3f :=
  vscale (/ Qc_of_Z (Z.of_nat n))
    (vsum
       (map (fun i => carried (roulette p (Qc_of_Z (Z.of_nat i) / Qc_of_Z (Z.of_nat n))
                                        throughput))
            (seq 0 n))).

(** Component-wise order on RGB values. *)
Definition vle (a b : Vec3f) : Prop :=
  c0 a <= c0 b /\ c1 a <= c1 b /\ c2 a <= c2 b.

End Bdpt.

(** ** A concrete set of collaborators

    A toy scene format: a scene is its path and its sample budget, the
    integrator state is the number of samples taken so far, a pass adds one
    sample per pixel, and times are whole seconds.  The file named
    [missing.json] cannot be loaded and [broken.json] cannot be flattened. *)

Module Sample.
Import Shared.

Record scene := mkScene { name : Path; budget : Z }.

Definition sampleLoad (p : Path) : res scene :=
  if String.eqb (asString p) "missing.json"
  then Raise (runtime_error "Unable to open file")
  else Ok (mkScene p 2).

Definition sampleTraceable (sc : scene) : res (Z * Z) :=
  if String.eqb (asString (name sc)) "broken.json"
  then Raise (runtime_error "No integrator")
  else Ok (0, budget sc).

(** A 2x2 camera whose pixels hold [x - 1], [y] and [2] in thousandths. *)
Definition sampleGet (sc : scene) (x y : Z) : Vec3 Z :=
  mkVec3 ((x - 1) * 1000) (y * 1000) 2000.

Definition sampleEnv : Env :=
  {| Scene := scene;
     Scene_load := sampleLoad;
     loadResources := fun sc => Ok sc;
     spp := budget;
     checkpointInterval := fun _ => 0;
     enableResumeRender := fun _ => true;
     setOutputDirectory := fun _ sc => sc;
     TraceableScene := Z * Z;
     makeTraceable := sampleTraceable;
     resumeRender := fun _ i => Ok (false, i);
     done := fun i => snd i <=? fst i;
     integratorCurrentSpp := fst;
     integratorNextSpp := fun i => fst i + 1;
     renderPass := fun i => Ok (fst i + 1, snd i);
     saveCheckpoint := fun i => Ok i;
     saveRenderResumeData := fun _ i => Ok i;
     saveOutputs := fun i => Ok i;
     double := Z;
     dzero := 0;
     dadd := Z.add;
     exceeds := fun elapsed seconds => seconds <? elapsed;
     checkpointTimerElapsed := fun round => Z.of_nat round;
     ioTimerElapsed := fun _ => 0;
     timerElapsed := 3;
     formatTime := fun t => (showInt t ++ "s")%string;
     float := Z;
     cameraResolution := fun _ => mkVec2 2 2;
     cameraGet := sampleGet;
     fmul255 := fun f => f * 255;
     float_to_int := fun f => Z.quot f 1000;
     clamp := fun v lo hi => Z.min (Z.max v lo) hi |}.

Definition sampleParser : CliParser :=
  mkParser ["a.json"; "missing.json"] (fun _ => false) (fun _ => "").

Definition idle (queue : list Path) : StandaloneRenderer sampleEnv :=
  @mkRenderer sampleEnv sampleParser [] 0 1 (mkPath "")
             None None (mkStatus STATE_LOADING 0 0 0 [] (mkPath "") queue).

Definition loaded : StandaloneRenderer sampleEnv :=
  @mkRenderer sampleEnv sampleParser [] 0 1 (mkPath "")
             (Some (mkScene (mkPath "a.json") 2)) (Some (1, 2))
             (mkStatus STATE_RENDERING 1 2 2 [] (mkPath "a.json") []).

(** Samples still to take. *)
Definition sampleRemaining (i : Z * Z) : nat := Z.to_nat (snd i - fst i).

(** Hand-made densities for the three strategies of total length 2; the
    middle one connects at a specular vertex and is not valid. *)
Definition sampleValid (a : Bdpt.Strategy) : bool := negb (fst a =? 1)%nat.

Definition sampleDensity (a : Bdpt.Strategy) : Qc :=
  match fst a with
  | O => Q2Qc (1 # 2)
  | S O => Q2Qc 5
  | _ => Q2Qc (1 # 6)
  end.

Definition half : Qc := Q2Qc (1 # 2).

Definition sampleThroughput : Bdpt.Vec3f := mkVec3 (Q2Qc 1) (Q2Qc (3 # 4)) (Q2Qc 0).

End Sample.

(** ** [formatTime]

    The static function at the head of [Shared.hpp].  What it does with the
    [double] itself (the conversion to [uint64], the subtraction, the
    product with [1000.0f] and the printing by [operator<<]) enters as
    operations on an abstract type; the arithmetic on [uint64] and the
    layout of the text are the function's own. *)

Module FormatTime.
Import Shared.

Section FormatTime.
Variable double : Type.
Variable to_uint64 : double -> Z.             (* [uint64(x)] *)
Variable minus_uint64 : double -> Z -> double. (* [elapsed - seconds] *)
Variable times_1000f : double -> double.       (* [fraction*1000.0f] *)
Variable showDouble : double -> string.        (* [ss << elapsed] *)

Definition formatTime (elapsed : double) : string :=
  let seconds := to_uint64 elapsed in
  let minutes := seconds / 60 in
  let hours := minutes / 60 in
  let days := hours / 24 in
  let fraction := minus_uint64 elapsed seconds in
  let ss := "" in
  let ss := if days =? 0 then ss else (ss ++ (showInt days ++ "d "))%string in
  let ss := if hours =? 0 then ss
            else (ss ++ (showInt (hours mod 24) ++ "h "))%string in
  let ss := if minutes =? 0 then ss
            else (ss ++ (showInt (minutes mod 60) ++ "m "))%string in
  let ss :=
    if seconds =? 0 then (ss ++ (showDouble elapsed ++ "s"))%string
    else (ss ++ (showInt (seconds mod 60) ++ "s "
                 ++ showInt (to_uint64 (times_1000f fraction) mod 1000) ++ "ms"))%string in
  ss.

End FormatTime.
End FormatTime.

From Stdlib Require Import Ascii.

(** ** The constructor of [StandaloneRenderer] and [setup]

    What they do outside the renderer (the option table of the parser, the
    help text, [std::exit], embree and the thread pool) is kept as a list of
    effects.  [ThreadUtils::idealThreadCount], [max], [std::atoi] and the
    operations of [Path] are not in the sources and enter as operations. *)

Module Startup.
Import Shared.

Inductive effect : Type :=
| AddOption (shortOpt : Ascii.ascii) (longOpt description : string)
            (hasParam : bool) (token : Z)
| PrintHelpText
| Exit (code : Z)
| RtcInit
| RtcStartThreads (numThreads : Z)
| StartThreads (numThreads : Z).

Section Startup.
Variable E : Env.
Variable idealThreadCount : Z.                 (* a [uint32], as the [1u] beside it *)
Variable max : Z -> Z -> Z.
Variable atoi : string -> Z.
Variable newPath : string -> Path.             (* [Path(const std::string &)] *)
Variable defaultPath : Path.                   (* [Path()] *)
Variable freezeWorkingDirectory : Path -> Path.
Variable absolute : Path -> Path.

Definition set_threadCount (n : Z) (r : StandaloneRenderer E) :=
  mkRenderer (_parser r) (_logStream r) (_checkpointInterval r) n
             (_outputDirectory r) (_scene r) (_flattenedScene r) (_status r).
Definition set_outputDirectory (p : Path) (r : StandaloneRenderer E) :=
  mkRenderer (_parser r) (_logStream r) (_checkpointInterval r) (_threadCount r)
             p (_scene r) (_flattenedScene r) (_status r).

(** [_status.queuedScenes.emplace_back(p)]. *)
Definition emplace_back (p : string) (r : StandaloneRenderer E) :=
  let st := _status r in
  set_status E (mkStatus (state st) (currentSpp st) (nextSpp st) (totalSpp st)
                         (completedScenes st) (currentScene st)
                         (queuedScenes st ++ [newPath p])) r.

(** The constructor: the options it registers and the renderer it leaves. *)
Definition construct (parser : CliParser) (logStream : list string)
    : list effect * StandaloneRenderer E :=
  ([AddOption "h"%char "help" "Prints this help text" false OPT_HELP;
    AddOption "v"%char "version" "Prints version information" false OPT_VERSION;
    AddOption "t"%char "threads"
      "Specifies number of threads to use (default: number of cores minus one)"
      true OPT_THREADS;
    AddOption "r"%char "restart"
      "Ignores saved render checkpoints and starts fresh from 0 spp" false OPT_RESTART;
    AddOption "c"%char "checkpoint"
      "Specifies render time in minutes before saving a checkpoint. A value of 0 disables checkpoints. Overrides the setting in the scene file"
      true OPT_CHECKPOINTS;
    AddOption "o"%char "output-directory"
      "Specifies the output directory. Overrides the setting in the scene file"
      true OPT_OUTPUT_DIRECTORY],
   mkRenderer parser logStream 0
              (int32 (max (uint32 (idealThreadCount - 1)) 1))
              defaultPath None None
              (mkStatus STATE_LOADING 0 0 0 [] defaultPath [])).

(** [setup]: its effects, and the renderer unless the process has exited. *)
Definition setup (r : StandaloneRenderer E)
    : list effect * option (StandaloneRenderer E) :=
  let parser := _parser r in
  if empty (operands parser) || isPresent parser OPT_HELP
  then ([PrintHelpText; Exit 0], None)
  else
    let r :=
      if isPresent parser OPT_THREADS
      then let newThreadCount := atoi (param parser OPT_THREADS) in
           if 0 <? newThreadCount then set_threadCount newThreadCount r else r
      else r in
    let r :=
      if isPresent parser OPT_CHECKPOINTS
      then set_checkpointInterval E (atoi (param parser OPT_CHECKPOINTS)) r
      else r in
    let started :=
      [RtcInit; RtcStartThreads (_threadCount r); StartThreads (_threadCount r)] in
    let r :=
      if isPresent parser OPT_OUTPUT_DIRECTORY
      then set_outputDirectory
             (absolute (freezeWorkingDirectory
                          (newPath (param parser OPT_OUTPUT_DIRECTORY)))) r
      else r in
    let r := fold_left (fun r p => emplace_back p r) (operands parser) r in
    (started, Some r).

End Startup.
End Startup.

(** ** What [renderScene] leaves alone *)

Module Frame.
Import Shared Props.

Section Frame.
Variable E : Env.

(** The log has only grown. *)
Definition appended (r r' : StandaloneRenderer E) : Prop :=
  exists lines, _logStream r' = _logStream r ++ lines.

(** The command line, the thread count and the output directory. *)
Definition configured (r r' : StandaloneRenderer E) : Prop :=
  _parser r' = _parser r
  /\ _threadCount r' = _threadCount r
  /\ _outputDirectory r' = _outputDirectory r.

(** What the blocks of the second [try] keep, the last one apart. *)
Definition inside (r r' : StandaloneRenderer E) : Prop :=
  configured r r' /\ appended r r'
  /\ _checkpointInterval r' = _checkpointInterval r
  /\ steady r r'.

(** The same up to the point where the checkpoint interval is taken from
    the scene, which happens unless [present], the presence of [-c],
    holds. *)
Definition entered (present : bool) (r r' : StandaloneRenderer E) : Prop :=
  configured r r' /\ appended r r' /\ steady r r'
  /\ (present = true -> _checkpointInterval r' = _checkpointInterval r).

(** What a run of the second [try] on scene [p] keeps, and what it does to
    the completed scenes. *)
Definition body_frame (p : Path) (present : bool) (r : StandaloneRenderer E)
    (res : outcome unit * StandaloneRenderer E) : Prop :=
  configured r (snd res) /\ appended r (snd res)
  /\ queuedScenes (_status (snd res)) = queuedScenes (_status r)
  /\ currentScene (_status (snd res)) = currentScene (_status r)
  /\ (present = true -> _checkpointInterval (snd res) = _checkpointInterval r)
  /\ match fst res with
     | Done _ => completedScenes (_status (snd res)) = completedScenes (_status r) ++ [p]
     | _ => completedScenes (_status (snd res)) = completedScenes (_status r)
     end.

(** What a call of [renderScene] on the queue [front :: rest] keeps. *)
Definition scene_frame (front : Path) (rest : list Path) (r : StandaloneRenderer E)
    (res : outcome bool * StandaloneRenderer E) : Prop :=
  configured r (snd res) /\ appended r (snd res)
  /\ queuedScenes (_status (snd res)) = rest
  /\ currentScene (_status (snd res)) = front
  /\ (isPresent (_parser r) OPT_CHECKPOINTS = true ->
      _checkpointInterval (snd res) = _checkpointInterval r)
  /\ (completedScenes (_status (snd res)) = completedScenes (_status r)
      \/ fst res = Done true
         /\ completedScenes (_status (snd res)) = completedScenes (_status r) ++ [front]).

(** The line logged after every pass of the render loop. *)
Definition completedLine (maxSpp current : Z) : string :=
  "Completed " ++ showInt current ++ "/" ++ showInt maxSpp ++ " spp".

(** The passes of the render loop that return, with [fuel] rounds
    granted: the integrator as each of them leaves it. *)
Fixpoint passesRun (fuel : nat) (integrator : TraceableScene E)
    : list (TraceableScene E) :=
  if done E integrator then []
  else
    match fuel with
    | O => []
    | S fuel' =>
        match renderPass E integrator with
        | Ok integrator' => integrator' :: passesRun fuel' integrator'
        | Raise _ => []
        end
    end.

(** Calling [renderScene] again and again until it returns [false], at
    most [calls] times; the result is the number of calls that returned
    [true]. *)
Fixpoint renderAll (calls fuel : nat) (r : StandaloneRenderer E)
    : outcome nat * StandaloneRenderer E :=
  match calls with
  | O => (Unfinished, r)
  | S calls' =>
      match renderScene E fuel r with
      | (Done true, r') =>
          match renderAll calls' fuel r' with
          | (Done n, r'') => (Done (S n), r'')
          | other => other
          end
      | (Done false, r') => (Done O, r')
      | (Thrown e, r') => (Thrown e, r')
      | (Unfinished, r') => (Unfinished, r')
      end
  end.

End Frame.

Arguments appended {E} _ _.
Arguments configured {E} _ _.
Arguments inside {E} _ _.
Arguments entered {E} _ _ _.
Arguments body_frame {E} _ _ _ _.
Arguments scene_frame {E} _ _ _ _.

End Frame.

(** ** More concrete collaborators *)

Module SampleEdge.
Import Shared Sample.

(** The collaborators of [sampleEnv] with a camera of another resolution. *)
Definition withResolution (res : Vec2) : Env :=
  {| Scene := Scene sampleEnv;
     Scene_load := Scene_load sampleEnv;
     loadResources := loadResources sampleEnv;
     spp := spp sampleEnv;
     checkpointInterval := checkpointInterval sampleEnv;
     enableResumeRender := enableResumeRender sampleEnv;
     setOutputDirectory := setOutputDirectory sampleEnv;
     TraceableScene := TraceableScene sampleEnv;
     makeTraceable := makeTraceable sampleEnv;
     resumeRender := resumeRender sampleEnv;
     done := done sampleEnv;
     integratorCurrentSpp := integratorCurrentSpp sampleEnv;
     integratorNextSpp := integratorNextSpp sampleEnv;
     renderPass := renderPass sampleEnv;
     saveCheckpoint := saveCheckpoint sampleEnv;
     saveRenderResumeData := saveRenderResumeData sampleEnv;
     saveOutputs := saveOutputs sampleEnv;
     double := double sampleEnv;
     dzero := dzero sampleEnv;
     dadd := dadd sampleEnv;
     exceeds := exceeds sampleEnv;
     checkpointTimerElapsed := checkpointTimerElapsed sampleEnv;
     ioTimerElapsed := ioTimerElapsed sampleEnv;
     timerElapsed := timerElapsed sampleEnv;
     formatTime := Shared.formatTime sampleEnv;
     float := float sampleEnv;
     cameraResolution := fun _ => res;
     cameraGet := cameraGet sampleEnv;
     fmul255 := fmul255 sampleEnv;
     float_to_int := float_to_int sampleEnv;
     clamp := clamp sampleEnv |}.

Definition loadedAt (res : Vec2) : StandaloneRenderer (withResolution res) :=
  @mkRenderer (withResolution res) sampleParser [] 0 1 (mkPath "")
              (Some (mkScene (mkPath "a.json") 2)) (Some (1, 2))
              (mkStatus STATE_RENDERING 1 2 2 [] (mkPath "a.json") []).

(** A command line [-t 4 -c 15 a.json b.json]. *)
Definition optionsParser : CliParser :=
  mkParser ["a.json"; "b.json"]
           (fun o => (o =? OPT_THREADS) || (o =? OPT_CHECKPOINTS))
           (fun o => if o =? OPT_THREADS then "4" else "15").

(** Enough of [atoi] for that command line. *)
Definition sampleAtoi (text : string) : Z :=
  if String.eqb text "4" then 4 else if String.eqb text "15" then 15 else 0.

Definition fresh : StandaloneRenderer sampleEnv :=
  @mkRenderer sampleEnv optionsParser [] 0 7 (mkPath "")
              None None (mkStatus STATE_LOADING 0 0 0 [] (mkPath "") []).

Definition queued : StandaloneRenderer sampleEnv :=
  @mkRenderer sampleEnv optionsParser [] 15 4 (mkPath "")
              None None
              (mkStatus STATE_LOADING 0 0 0 [] (mkPath "")
                        [mkPath "a.json"; mkPath "b.json"]).

(** The whole part of a duration held as a rational, for running
    [formatTime] on sample durations. *)
Definition wholePart (q : Q) : Z := Qnum q / Z.pos (Qden q).

End SampleEdge.

Module SharedFacts.
Import Shared.

Lemma pathArray_from (ps : list Path) (es : list Value) :
  fold_left (fun v p => PushBack (kString (asString p)) v) ps (kArray es)
  = kArray (es ++ map (fun p => kString (asString p)) ps).
Proof.
  revert es. induction ps as [|p ps IH]; intros es; simpl.
  - by rewrite app_nil_r.
  - rewrite IH. by rewrite <- app_assoc.
Qed.

Lemma pathArray_map (ps : list Path) :
  pathArray ps = kArray (map (fun p => kString (asString p)) ps).
Proof. unfold pathArray. by rewrite pathArray_from. Qed.

Example toJson_idle :
  toJson (mkStatus STATE_LOADING 0 0 0 [] (mkPath "") [])
  = kObject [("state", kString "loading"); ("current_spp", kNumber 0);
             ("next_spp", kNumber 0); ("total_spp", kNumber 0);
             ("current_scene", kString "")].
Proof. reflexivity. Qed.

Example toJson_busy :
  toJson (mkStatus STATE_RENDERING 16 32 64 [mkPath "a.json"] (mkPath "b.json")
                   [mkPath "c.json"; mkPath "d.json"])
  = kObject [("state", kString "rendering"); ("current_spp", kNumber 16);
             ("next_spp", kNumber 32); ("total_spp", kNumber 64);
             ("current_scene", kString "b.json");
             ("completed_scenes", kArray [kString "a.json"]);
             ("queued_scenes", kArray [kString "c.json"; kString "d.json"])].
Proof. reflexivity. Qed.

Example renderStateToString_other : renderStateToString 7 = "unknown".
Proof. reflexivity. Qed.

(** C10. [RendererStatus::toJson] returns an object whose members are, in
    order, [state], [current_spp], [next_spp], [total_spp], [current_scene],
    then [completed_scenes] exactly when the vector of completed scenes is
    non-empty, then [queued_scenes] exactly when the deque of queued scenes is
    non-empty; the arrays list the paths in order; and [state] is
    ["loading"] for [STATE_LOADING], ["rendering"] for [STATE_RENDERING] and
    ["unknown"] for every other value. *)
Theorem toJson_members (st : RendererStatus) :
  exists ms,
    toJson st = kObject ms
    /\ map fst ms
       = ["state"; "current_spp"; "next_spp"; "total_spp"; "current_scene"]
         ++ (if empty (completedScenes st) then [] else ["completed_scenes"])
         ++ (if empty (queuedScenes st) then [] else ["queued_scenes"])
    /\ HasMember "completed_scenes" ms = negb (empty (completedScenes st))
    /\ HasMember "queued_scenes" ms = negb (empty (queuedScenes st))
    /\ FindMember "state" ms
       = Some (kString (if (state st =? STATE_LOADING)%Z then "loading"
                        else if (state st =? STATE_RENDERING)%Z then "rendering"
                        else "unknown"))
    /\ FindMember "current_spp" ms = Some (kNumber (currentSpp st))
    /\ FindMember "next_spp" ms = Some (kNumber (nextSpp st))
    /\ FindMember "total_spp" ms = Some (kNumber (totalSpp st))
    /\ FindMember "current_scene" ms = Some (kString (asString (currentScene st)))
    /\ FindMember "completed_scenes" ms
       = (if empty (completedScenes st) then None
          else Some (kArray (map (fun p => kString (asString p)) (completedScenes st))))
    /\ FindMember "queued_scenes" ms
       = (if empty (queuedScenes st) then None
          else Some (kArray (map (fun p => kString (asString p)) (queuedScenes st)))).
Proof.
  destruct st as [s c n t done cur queue]; unfold toJson; simpl.
  destruct done as [|d ds], queue as [|q qs]; simpl;
    eexists; (split; [reflexivity|]);
    rewrite ?pathArray_map; repeat split; reflexivity.
Qed.

End SharedFacts.

(** ** Facts about [frameBuffer] *)

Module FrameBufferFacts.
Import Shared Props.

Section Facts.
Variable E : Env.

Lemma uint8_small (c : Z) : channel_ok c -> uint8 c = c.
Proof. unfold channel_ok, uint8. intros H. apply Z.mod_small. lia. Qed.

Lemma ldrPixel_clamped (sc : Scene E) (x y : Z) :
  clamp_within E -> ldrPixel E sc x y = clampedPixel sc x y /\ pixel_ok (ldrPixel E sc x y).
Proof.
  intros Hc. unfold ldrPixel, clampedPixel, pixel_ok, vmap; simpl.
  destruct (cameraGet E sc x y) as [a b c]; simpl.
  assert (K : forall f, channel_ok (clamp E (float_to_int E (fmul255 E f)) 0 255))
    by (intros f; apply Hc; lia).
  rewrite !uint8_small by apply K. repeat split; apply K.
Qed.

Lemma store_middle (pre suf : list cell) (j : cell) (v : Vec3 Z) :
  store (pre ++ j :: suf) (Z.of_nat (length pre)) v = Some (pre ++ Some v :: suf).
Proof.
  unfold store. rewrite length_app; simpl.
  replace (0 <=? Z.of_nat (length pre)) with true by (symmetry; apply Z.leb_le; lia).
  replace (Z.of_nat (length pre) <? Z.of_nat (length pre + S (length suf))) with true
    by (symmetry; apply Z.ltb_lt; lia).
  rewrite Nat2Z.id. cbn [andb]. f_equal.
  rewrite insert_app_r_alt by lia. by rewrite Nat.sub_diag.
Qed.

Lemma rowLoop_fill (sc : Scene E) (res : Vec2) (y : Z) :
  forall (todo x0 : nat) (pre junk suf : list cell),
    length junk = todo ->
    0 <= y * vx res ->
    Z.of_nat (length pre) = Z.of_nat x0 + y * vx res ->
    Z.of_nat (length pre) + Z.of_nat todo <= 2 ^ 32 ->
    rowLoop E sc res y todo (Z.of_nat x0) (pre ++ junk ++ suf)
    = Some (pre ++ rowCells sc y x0 todo ++ suf).
Proof.
  induction todo as [|todo IH]; intros x0 pre junk suf Hlen Hy Hpre Hfit.
  - destruct junk; [|discriminate]. reflexivity.
  - destruct junk as [|j junk]; [discriminate|]. simpl in Hlen.
    cbn [rowLoop].
    assert (Hidx : uint32 (Z.of_nat x0 + uint32 (y * vx res)) = Z.of_nat (length pre)).
    { unfold uint32. change (2 ^ 32) with 4294967296 in *.
      rewrite (Z.mod_small (y * vx res)) by lia.
      rewrite Z.mod_small by lia. lia. }
    rewrite Hidx. simpl. rewrite store_middle.
    replace (Z.of_nat x0 + 1) with (Z.of_nat (S x0)) by lia.
    replace (pre ++ Some (ldrPixel E sc (Z.of_nat x0) y) :: junk ++ suf)
      with ((pre ++ [Some (ldrPixel E sc (Z.of_nat x0) y)]) ++ junk ++ suf)
      by (by rewrite <- app_assoc).
    rewrite (IH (S x0)); try lia.
    + unfold rowCells. simpl. by rewrite <- app_assoc.
    + rewrite length_app; simpl. lia.
    + rewrite length_app; simpl. lia.
Qed.

Lemma imageLoop_fill (sc : Scene E) (res : Vec2) (w : nat) :
  vx res = Z.of_nat w ->
  forall (todo y0 : nat) (pre junk : list cell),
    length junk = (todo * w)%nat ->
    length pre = (y0 * w)%nat ->
    Z.of_nat (length pre) + Z.of_nat (todo * w) <= 2 ^ 32 ->
    imageLoop E sc res todo (Z.of_nat y0) (pre ++ junk)
    = Some (pre ++ imageCells sc w y0 todo).
Proof.
  intros Hw. induction todo as [|todo IH]; intros y0 pre junk Hlen Hpre Hfit.
  - destruct junk; [|discriminate]. reflexivity.
  - cbn [imageLoop]. rewrite Hw, Nat2Z.id.
    rewrite <- (take_drop w junk).
    pose proof (rowLoop_fill sc res (Z.of_nat y0) w 0%nat pre (take w junk) (drop w junk)) as R.
    change (Z.of_nat 0) with 0 in R. rewrite R; clear R.
    + replace (Z.of_nat y0 + 1) with (Z.of_nat (S y0)) by lia.
      rewrite app_assoc. rewrite (IH (S y0)).
      * unfold imageCells. simpl. by rewrite <- app_assoc.
      * rewrite length_drop. lia.
      * rewrite length_app. unfold rowCells. rewrite length_map, length_seq. lia.
      * rewrite length_app. unfold rowCells. rewrite length_map, length_seq. lia.
    + rewrite length_take. lia.
    + rewrite Hw. lia.
    + rewrite Hw. lia.
    + lia.
Qed.

Lemma length_imageCells (sc : Scene E) (w y0 n : nat) :
  length (imageCells sc w y0 n) = (n * w)%nat.
Proof.
  revert y0. induction n as [|n IH]; intros y0; [reflexivity|].
  unfold imageCells in *. simpl. rewrite length_app, IH.
  unfold rowCells. by rewrite length_map, length_seq.
Qed.

Lemma lookup_imageCells (sc : Scene E) (w : nat) :
  forall (n y0 x y : nat),
    (x < w)%nat -> (y < n)%nat ->
    imageCells sc w y0 n !! (x + y * w)%nat
    = Some (Some (ldrPixel E sc (Z.of_nat x) (Z.of_nat (y0 + y)))).
Proof.
  induction n as [|n IH]; intros y0 x y Hx Hy; [lia|].
  unfold imageCells in *. simpl.
  destruct y as [|y].
  - rewrite lookup_app_l by (unfold rowCells; rewrite length_map, length_seq; lia).
    unfold rowCells. rewrite list_lookup_fmap.
    replace (x + 0 * w)%nat with x by lia.
    rewrite lookup_seq_lt by lia. simpl. by rewrite Nat.add_0_r.
  - rewrite lookup_app_r by (unfold rowCells; rewrite length_map, length_seq; lia).
    unfold rowCells at 1. rewrite length_map, length_seq.
    replace (x + S y * w - w)%nat with (x + y * w)%nat by lia.
    rewrite (IH (S y0) x y) by lia. do 3 f_equal. lia.
Qed.

Lemma imageCells_pixels (sc : Scene E) (w h i : nat) (c : cell) :
  imageCells sc w 0 h !! i = Some c ->
  exists x y : nat,
    (x < w)%nat /\ (y < h)%nat /\ i = (x + y * w)%nat
    /\ c = Some (ldrPixel E sc (Z.of_nat x) (Z.of_nat y)).
Proof.
  intros Hi. pose proof (lookup_lt_Some _ _ _ Hi) as Hlt.
  rewrite length_imageCells in Hlt.
  assert (Hw : (0 < w)%nat) by (destruct w; lia).
  exists (i mod w)%nat, (i / w)%nat.
  assert (Hx : (i mod w < w)%nat) by (apply Nat.mod_upper_bound; lia).
  assert (Hy : (i / w < h)%nat) by (apply Nat.Div0.div_lt_upper_bound; lia).
  assert (Hdm : i = (i mod w + i / w * w)%nat)
    by (rewrite (Nat.div_mod_eq i w) at 1; lia).
  repeat split; try assumption.
  rewrite Hdm in Hi. rewrite lookup_imageCells in Hi by assumption.
  by inversion Hi.
Qed.


End Facts.

Lemma sample_clamp_within : clamp_within Sample.sampleEnv.
Proof. intros v lo hi H. simpl. lia. Qed.

Example frameBuffer_loaded :
  frameBuffer Sample.sampleEnv Sample.loaded (mkVec2 0 0)
  = (Buffer [Some (mkVec3 0 0 255); Some (mkVec3 0 0 255);
             Some (mkVec3 0 255 255); Some (mkVec3 0 255 255)],
     mkVec2 2 2).
Proof. reflexivity. Qed.

Example frameBuffer_idle :
  frameBuffer Sample.sampleEnv (Sample.idle []) (mkVec2 7 7) = (Nullptr, mkVec2 7 7).
Proof. reflexivity. Qed.

(** A resolution whose product wraps around: the array has no cell and the
    first write is already past its end. *)
Example frameBuffer_wraps (E : Env) (r : StandaloneRenderer E) (sc : Scene E)
    (fl : TraceableScene E) :
  _scene r = Some sc -> _flattenedScene r = Some fl ->
  cameraResolution E sc = mkVec2 65536 65536 ->
  frameBuffer E r (mkVec2 0 0) = (OutOfBounds, mkVec2 0 0).
Proof. intros Hs Hf Hr. unfold frameBuffer. rewrite Hs, Hf, Hr. reflexivity. Qed.



End FrameBufferFacts.

(** ** Facts about [renderScene] *)

Module RenderSceneFacts.
Import Shared Props.

(** Unfolds the plumbing of [M]. *)
Ltac run :=
  cbv beta iota zeta delta [bind call modify ret when writeLogLine resetScenes loadScene];
  cbn [fst snd].

Section Facts.
Variable E : Env.
Variable remaining : TraceableScene E -> nat.

Lemma steady_refl (r : StandaloneRenderer E) : steady r r.
Proof. by repeat split. Qed.

Lemma steady_trans (r1 r2 r3 : StandaloneRenderer E) :
  steady r1 r2 -> steady r2 r3 -> steady r1 r3.
Proof. unfold steady. intros (a & b & c) (d & e & f). repeat split; congruence. Qed.

Lemma ended_after {A} (r r1 : StandaloneRenderer E)
    (res : outcome A * StandaloneRenderer E) :
  steady r r1 -> ended r1 res -> ended r res.
Proof. intros S [S' O]. split; [by eapply steady_trans|done]. Qed.

Lemma renderLoop_ends :
  only_runtime_errors E -> integrator_finishes E remaining ->
  forall (fuel round : nat) maxSpp sc i tot r,
    (remaining i < fuel)%nat ->
    ended r (renderLoop E fuel round maxSpp sc i tot r).
Proof.
  intros (_ & _ & _ & _ & Hpass & Hsave & Hdata & _) (Fpass & Fsave & Fdata).
  induction fuel as [|fuel IH]; intros round maxSpp sc i tot r Hfuel; [lia|].
  cbn [renderLoop]. destruct (done E i) eqn:D.
  { split; [apply steady_refl|exact I]. }
  run. destruct (renderPass E i) as [i1|e] eqn:P.
  2:{ split; [by repeat split|]. intros ->. by apply (Hpass i). }
  pose proof (Fpass i i1 D P) as F1.
  match goal with |- context [if ?a && ?b then _ else _] => destruct (a && b) end.
  2:{ eapply ended_after; [|apply IH; lia]. by repeat split. }
  destruct (saveCheckpoint E i1) as [i2|e] eqn:S.
  2:{ split; [by repeat split|]. intros ->. by apply (Hsave i1). }
  pose proof (Fsave i1 i2 S) as F2.
  destruct (enableResumeRender E sc).
  - destruct (saveRenderResumeData E sc i2) as [i3|e] eqn:R.
    2:{ split; [by repeat split|]. intros ->. by apply (Hdata sc i2). }
    pose proof (Fdata sc i2 i3 R) as F3.
    eapply ended_after; [|apply IH; lia]. by repeat split.
  - eapply ended_after; [|apply IH; lia]. by repeat split.
Qed.

Lemma resume_ends :
  only_runtime_errors E ->
  forall restart sc i r, ended r (resume E restart sc i r).
Proof.
  intros (_ & _ & _ & Hresume & _) restart sc i r. unfold resume.
  destruct (enableResumeRender E sc && negb restart); run.
  2:{ split; [apply steady_refl|exact I]. }
  destruct (resumeRender E sc i) as [[ok i']|e] eqn:RR; cbn [fst snd].
  - by destruct ok.
  - split; [by repeat split|]. intros ->. by apply (Hresume sc i).
Qed.

Lemma finish_ends :
  only_runtime_errors E ->
  forall p sc i r, rendered p r (finish E p sc i r).
Proof.
  intros (_ & _ & _ & _ & _ & _ & Hdata & Hout) p sc i r. unfold finish. run.
  destruct (saveOutputs E i) as [i1|e] eqn:SO.
  2:{ repeat split; try done. intros ->. by apply (Hout i). }
  destruct (enableResumeRender E sc); [|by repeat split].
  destruct (saveRenderResumeData E sc i1) as [i2|e] eqn:SD; [by repeat split|].
  repeat split; try done. intros ->. by apply (Hdata sc i1).
Qed.

Lemma rendered_after p (r r1 : StandaloneRenderer E)
    (res : outcome unit * StandaloneRenderer E) :
  steady r r1 -> rendered p r1 res -> rendered p r res.
Proof.
  intros (Q & C & D) (Q' & C' & O). repeat split; try congruence.
  destruct (fst res); [congruence| |done]. destruct O. split; congruence.
Qed.

Lemma renderBody_ends :
  only_runtime_errors E -> integrator_finishes E remaining ->
  forall p sc r, exists fuel0 : nat, forall fuel : nat,
    (fuel0 <= fuel)%nat -> rendered p r (renderBody E fuel p sc r).
Proof.
  intros ORE FIN p sc r.
  pose proof ORE as (_ & _ & Htrace & _).
  unfold renderBody.
  set (sc' := if isPresent (_parser r) OPT_OUTPUT_DIRECTORY
              then setOutputDirectory E (_outputDirectory r) sc else sc).
  cbv zeta. run.
  destruct (makeTraceable E sc') as [i|e] eqn:T.
  2:{ exists O. intros fuel _. repeat split; try done. intros ->. by apply (Htrace sc'). }
  assert (Tail : forall r1, steady r r1 ->
            exists fuel0 : nat, forall fuel : nat, (fuel0 <= fuel)%nat ->
              rendered p r
                (bind E (resume E (isPresent (_parser r) OPT_RESTART) sc' i) (fun i2 =>
                 bind E (writeLogLine E "Starting render...") (fun _ =>
                 bind E (renderLoop E fuel 0 (spp E sc') sc' i2 (dzero E)) (fun i4 =>
                 finish E p sc' i4))) r1)).
  { intros r1 S1. run.
    pose proof (resume_ends ORE (isPresent (_parser r) OPT_RESTART) sc' i r1) as [S2 O2].
    destruct (resume E (isPresent (_parser r) OPT_RESTART) sc' i r1) as [[i2|e|] r2];
      cbn [fst snd] in *; [| |done].
    2:{ exists O. intros fuel _. apply (rendered_after p r r2).
        - by eapply steady_trans.
        - by repeat split. }
    exists (S (remaining i2)). intros fuel Hfuel.
    set (r3 := set_logStream E (_logStream r2 ++ ["Starting render..."]) r2).
    assert (S3 : steady r r3).
    { eapply steady_trans; [exact S1|]. eapply steady_trans; [exact S2|]. by repeat split. }
    destruct (renderLoop_ends ORE FIN fuel 0 (spp E sc') sc' i2 (dzero E) r3) as [S4 O4];
      [lia|].
    destruct (renderLoop E fuel 0 (spp E sc') sc' i2 (dzero E) r3) as [[i4|e|] r4];
      cbn [fst snd] in *; [| |done].
    - apply (rendered_after p r r4); [by eapply steady_trans|]. by apply finish_ends.
    - apply (rendered_after p r r4); [by eapply steady_trans|]. by repeat split. }
  destruct (negb (isPresent (_parser r) OPT_CHECKPOINTS)); cbv beta iota;
    (eapply ex_ind; [|apply Tail]);
    [ intros fuel0 H; exists fuel0; exact H | by repeat split
    | intros fuel0 H; exists fuel0; exact H | by repeat split ].
Qed.

Lemma renderBody_untraceable (fuel : nat) (p : Path) (sc : Scene E)
    (r : StandaloneRenderer E) (what : string) :
  makeTraceable E (outputScene r sc) = Raise (runtime_error what) ->
  renderBody E fuel p sc r
  = (Thrown (runtime_error what), set_scene E (Some (outputScene r sc)) r).
Proof. intros T. unfold renderBody, outputScene in *. cbv zeta. run. by rewrite T. Qed.

(** C8. On an empty queue [renderScene] returns [false] and changes
    nothing.  On a queue [front :: rest] it never returns [false]; and when
    the collaborators throw nothing but [std::runtime_error] and the
    integrator gets done, it returns [true] once the render loop is given
    enough rounds, having removed exactly [front] from the queue, made it
    the current scene and reset [_scene] ([_flattenedScene] too, unless it
    was set on entry and loading failed).  Then either [front] was appended
    to the completed scenes, or the completed scenes are unchanged and the
    last line of the log is the loader's or the renderer's error line for
    [front]; when it is [Scene::load] or [loadResources] that throws, the log
    has grown by the loading line and the loader's error line with the
    exception's text.  When the scene was loaded, the renderer is left as
    the second [try] left it, with both scenes reset: after a rendering
    that returned, [front] is the last completed scene and nothing more is
    logged; after a rendering that threw a [std::runtime_error], the
    renderer's error line with the exception's text is appended to the log
    and the completed scenes are those of the entry.  So when it is
    [makeTraceable] that throws, the log has grown by the loading line and
    the renderer's error line with the exception's text. *)
Theorem renderScene_spec (r : StandaloneRenderer E) :
  only_runtime_errors E -> integrator_finishes E remaining ->
  match queuedScenes (_status r) with
  | [] => forall fuel : nat, renderScene E fuel r = (Done false, r)
  | front :: rest =>
      (forall (fuel : nat) r', renderScene E fuel r <> (Done false, r'))
      /\ exists fuel0 : nat, forall fuel : nat, (fuel0 <= fuel)%nat ->
           exists r',
             renderScene E fuel r = (Done true, r')
             /\ queuedScenes (_status r') = rest
             /\ currentScene (_status r') = front
             /\ _scene r' = None
             /\ (_flattenedScene r' = None \/ _flattenedScene r' = _flattenedScene r)
             /\ (completedScenes (_status r') = completedScenes (_status r) ++ [front]
                 \/ completedScenes (_status r') = completedScenes (_status r)
                    /\ exists what,
                         last (_logStream r') = Some (loaderError front what)
                         \/ last (_logStream r') = Some (rendererError front what))
             /\ (forall what,
                   Scene_load E front = Raise (runtime_error what)
                   \/ (exists sc, Scene_load E front = Ok sc
                                  /\ loadResources E sc = Raise (runtime_error what)) ->
                   _logStream r'
                   = _logStream r ++ [loadingLine front; loaderError front what])
             /\ (forall sc0 sc,
                   Scene_load E front = Ok sc0 -> loadResources E sc0 = Ok sc ->
                   match renderBody E fuel front sc (atRender front rest sc r) with
                   | (Done _, r2) =>
                       r' = released r2
                       /\ completedScenes (_status r')
                          = completedScenes (_status r) ++ [front]
                   | (Thrown (runtime_error what), r2) =>
                       r' = released (set_logStream E
                                        (_logStream r2 ++ [rendererError front what]) r2)
                       /\ completedScenes (_status r') = completedScenes (_status r)
                   | _ => False
                   end)
             /\ (forall sc0 sc what,
                   Scene_load E front = Ok sc0 -> loadResources E sc0 = Ok sc ->
                   makeTraceable E (outputScene r sc) = Raise (runtime_error what) ->
                   _logStream r'
                   = _logStream r ++ [loadingLine front; rendererError front what]
                   /\ completedScenes (_status r') = completedScenes (_status r))
  end.
Proof.
  intros ORE FIN.
  pose proof ORE as (Hload & Hres & _).
  destruct (queuedScenes (_status r)) as [|front rest] eqn:Q.
  { intros fuel. unfold renderScene. by rewrite Q. }
  split.
  - intros fuel r'. unfold renderScene. rewrite Q. run.
    destruct (Scene_load E front) as [sc|[what|]]; try discriminate.
    destruct (loadResources E sc) as [sc1|[what|]]; try discriminate.
    match goal with |- context [renderBody E ?f ?p ?s ?r0] =>
      destruct (renderBody E f p s r0) as [[[]|[what|]|] r2] end; discriminate.
  - unfold renderScene. rewrite Q. run.
    set (r0 := set_logStream E _ _).
    destruct (Scene_load E front) as [sc|[what|]] eqn:L; [| |by destruct (Hload front)].
    2:{ exists O. intros fuel _. eexists. split; [reflexivity|]. cbn.
        do 4 (split; [done || by right|]).
        split; [right; split; [done|]; exists what; left; by rewrite last_snoc|].
        split; [intros w [[= <-]|(sc & [=] & _)]; by rewrite <- app_assoc|].
        split; [intros sc0 sc [=]|intros sc0 sc w [=]]. }
    destruct (loadResources E sc) as [sc1|[what|]] eqn:LR; [| |by destruct (Hres sc)].
    2:{ exists O. intros fuel _. eexists. split; [reflexivity|]. cbn.
        do 4 (split; [done || by right|]).
        split; [right; split; [done|]; exists what; left; by rewrite last_snoc|].
        split.
        { intros w [[=]|(sc' & [= <-] & Hw)]. rewrite LR in Hw. injection Hw as <-.
          by rewrite <- app_assoc. }
        split.
        - intros sc0 sc' [= <-] Hw. by rewrite LR in Hw.
        - intros sc0 sc' w [= <-] Hw. by rewrite LR in Hw. }
    set (r1 := set_status E _ _).
    destruct (renderBody_ends ORE FIN front sc1 r1) as [fuel0 Hbody].
    exists fuel0. intros fuel Hfuel.
    destruct (Hbody fuel Hfuel) as (Q2 & C2 & O2).
    destruct (renderBody E fuel front sc1 r1) as [[[]|[what|]|] r2] eqn:RB;
      cbn [fst snd] in *; [| |by destruct O2|done].
    + eexists. split; [reflexivity|].
      do 4 (split; [cbn; done || by left|]).
      split; [cbn; by left|].
      split; [intros w [[=]|(sc' & [= <-] & Hw)]; by rewrite LR in Hw|].
      split.
      * intros sc0 sc' [= <-] Hw. rewrite LR in Hw. injection Hw as <-.
        change (atRender front rest sc1 r) with r1. rewrite RB. by split.
      * intros sc0 sc' w [= <-] Hw T. rewrite LR in Hw. injection Hw as <-.
        change (outputScene r sc1) with (outputScene r1 sc1) in T.
        by rewrite (renderBody_untraceable fuel front sc1 r1 w T) in RB.
    + destruct O2 as [_ D2].
      eexists. split; [reflexivity|].
      do 4 (split; [cbn; done || by left|]).
      split; [cbn; right; split; [done|]; exists what; right; by rewrite last_snoc|].
      split; [intros w [[=]|(sc' & [= <-] & Hw)]; by rewrite LR in Hw|].
      split.
      * intros sc0 sc' [= <-] Hw. rewrite LR in Hw. injection Hw as <-.
        change (atRender front rest sc1 r) with r1. rewrite RB. by split.
      * intros sc0 sc' w [= <-] Hw T. rewrite LR in Hw. injection Hw as <-.
        change (outputScene r sc1) with (outputScene r1 sc1) in T.
        rewrite (renderBody_untraceable fuel front sc1 r1 w T) in RB.
        injection RB as <- <-. cbn. split; [by rewrite <- app_assoc|done].
Qed.

End Facts.

Lemma sample_only_runtime_errors : only_runtime_errors Sample.sampleEnv.
Proof.
  repeat split; simpl; try discriminate.
  - intros p. unfold Sample.sampleLoad. by destruct (String.eqb _ _).
  - intros sc. unfold Sample.sampleTraceable. by destruct (String.eqb _ _).
Qed.

Lemma sample_integrator_finishes :
  integrator_finishes Sample.sampleEnv Sample.sampleRemaining.
Proof.
  repeat split; simpl; unfold Sample.sampleRemaining.
  - intros [cur goal] i' Hdone [= <-]. simpl in *. apply Z.leb_gt in Hdone. lia.
  - by intros i i' [= <-].
  - by intros sc i i' [= <-].
Qed.

Example renderScene_empty :
  forall fuel, renderScene Sample.sampleEnv fuel (Sample.idle []) = (Done false, Sample.idle []).
Proof. reflexivity. Qed.

Example renderScene_missing :
  exists r',
    renderScene Sample.sampleEnv 0 (Sample.idle [mkPath "missing.json"; mkPath "a.json"])
    = (Done true, r')
    /\ _logStream r'
       = [loadingLine (mkPath "missing.json");
          loaderError (mkPath "missing.json") "Unable to open file"]
    /\ queuedScenes (_status r') = [mkPath "a.json"]
    /\ completedScenes (_status r') = [].
Proof. eexists. repeat split. Qed.

Example renderScene_rendered :
  exists r',
    renderScene Sample.sampleEnv 3 (Sample.idle [mkPath "a.json"; mkPath "b.json"])
    = (Done true, r')
    /\ queuedScenes (_status r') = [mkPath "b.json"]
    /\ completedScenes (_status r') = [mkPath "a.json"]
    /\ _scene r' = None /\ _flattenedScene r' = None.
Proof. eexists. split; [vm_compute; reflexivity|]. repeat split. Qed.

Example renderScene_broken :
  exists r',
    renderScene Sample.sampleEnv 0 (Sample.idle [mkPath "broken.json"; mkPath "a.json"])
    = (Done true, r')
    /\ _logStream r'
       = [loadingLine (mkPath "broken.json");
          rendererError (mkPath "broken.json") "No integrator"]
    /\ queuedScenes (_status r') = [mkPath "a.json"]
    /\ completedScenes (_status r') = []
    /\ _scene r' = None /\ _flattenedScene r' = None.
Proof. eexists. split; [vm_compute; reflexivity|]. repeat split. Qed.

(** The handlers catch [std::runtime_error] only: another exception leaves
    [renderScene] with the scene still popped from the queue. *)
Example renderScene_other_exception (E : Env) (r : StandaloneRenderer E)
    (front : Path) (rest : list Path) (fuel : nat) :
  queuedScenes (_status r) = front :: rest ->
  Scene_load E front = Raise other_exception ->
  exists r', renderScene E fuel r = (Thrown other_exception, r')
             /\ queuedScenes (_status r') = rest.
Proof.
  intros Q L. unfold renderScene. rewrite Q. run. rewrite L.
  eexists. split; reflexivity.
Qed.

Lemma renderScene_spec_witness :
  only_runtime_errors Sample.sampleEnv
  /\ integrator_finishes Sample.sampleEnv Sample.sampleRemaining
  /\ exists fuel0 : nat, forall fuel : nat, (fuel0 <= fuel)%nat ->
       exists r',
         renderScene Sample.sampleEnv fuel
                     (Sample.idle [mkPath "broken.json"; mkPath "a.json"])
         = (Done true, r')
         /\ queuedScenes (_status r') = [mkPath "a.json"]
         /\ currentScene (_status r') = mkPath "broken.json"
         /\ _scene r' = None
         /\ _logStream r'
            = [loadingLine (mkPath "broken.json");
               rendererError (mkPath "broken.json") "No integrator"]
         /\ completedScenes (_status r') = [].
Proof.
  split; [exact sample_only_runtime_errors|].
  split; [exact sample_integrator_finishes|].
  pose proof (renderScene_spec Sample.sampleEnv Sample.sampleRemaining
                (Sample.idle [mkPath "broken.json"; mkPath "a.json"])
                sample_only_runtime_errors sample_integrator_finishes) as H.
  simpl in H. destruct H as [_ [fuel0 H]].
  exists fuel0. intros fuel Hfuel.
  destruct (H fuel Hfuel) as (r' & Hr & Hq & Hc & Hs & _ & _ & _ & _ & Ht).
  destruct (Ht (Sample.mkScene (mkPath "broken.json") 2)
               (Sample.mkScene (mkPath "broken.json") 2) "No integrator"
               eq_refl eq_refl eq_refl) as [Hlog Hdone].
  exists r'. repeat split; assumption.
Defined.

End RenderSceneFacts.

Module MisFacts.
Import Shared Bdpt.
Local Open Scope Qc_scope.

Lemma In_alternatives (total s t : nat) :
  In (s, t) (alternatives total) <-> (s + t = total)%nat.
Proof.
  unfold alternatives. rewrite in_map_iff. split.
  - intros (s' & [= <- <-] & Hin). apply in_seq in Hin. lia.
  - intros <-. exists s. split; [f_equal; lia|]. apply in_seq. lia.
Qed.

Lemma Qcinv_0 : / 0 = 0.
Proof. by apply Qc_is_canon. Qed.

Lemma Qcinv_inv (d : Qc) : / / d = d.
Proof.
  destruct (Qc_eq_dec d 0) as [->|Hd]; [by rewrite !Qcinv_0|].
  field. by split.
Qed.

Lemma sumQc_scale {A} (f : A -> Qc) (k : Qc) (l : list A) :
  sumQc (map (fun a => f a * k) l) = sumQc (map f l) * k.
Proof. induction l as [|a l IH]; simpl; [ring|]. rewrite IH. ring. Qed.

Lemma sumQc_nonneg (l : list Qc) : Forall (Qcle 0) l -> 0 <= sumQc l.
Proof.
  induction 1 as [|x l Hx _ IH]; simpl; [done|].
  replace 0 with (0 + 0) by ring. by apply Qcplus_le_compat.
Qed.

Lemma sumQc_pos (l : list Qc) :
  Forall (Qcle 0) l -> Exists (Qclt 0) l -> 0 < sumQc l.
Proof.
  intros Hall Hex. induction Hex as [x l Hx|x l _ IH]; simpl.
  - apply Forall_cons in Hall as [_ Hl].
    apply Qclt_le_trans with (x + 0); [by rewrite Qcplus_0_r|].
    apply Qcplus_le_compat; [done|by apply sumQc_nonneg].
  - apply Forall_cons in Hall as [Hx Hl].
    apply Qclt_le_trans with (0 + sumQc l); [rewrite Qcplus_0_l; by apply IH|].
    by apply Qcplus_le_compat.
Qed.

Section Weights.
Variable valid : Strategy -> bool.
Variable density : Strategy -> Qc.

(** The weight of the balance heuristic in its usual form. *)
Lemma misWeight_ratio (total : nat) (used : Strategy) :
  misWeight valid density total used
  = density used / sumQc (map density (validAlternatives valid total)).
Proof.
  unfold misWeight, relativeDensities, Qcdiv.
  rewrite sumQc_scale, Qcinv_mult_distr, Qcinv_inv. ring.
Qed.

(** C1. For a fixed total path length, whatever non-negative sampling
    densities the valid alternatives [(s', t')] with [s' + t' = total] are
    given, as long as one of them (the strategy that produced the path) has
    a positive density, the balance-heuristic weights of the valid
    alternatives sum to exactly 1. *)
Theorem misWeight_sum (total : nat) :
  (forall a, In a (validAlternatives valid total) -> 0 <= density a) ->
  (exists a, In a (validAlternatives valid total) /\ 0 < density a) ->
  sumQc (map (misWeight valid density total) (validAlternatives valid total)) = 1.
Proof.
  intros Hnonneg (a & Hin & Hpos).
  set (alts := validAlternatives valid total) in *.
  assert (Htotal : 0 < sumQc (map density alts)).
  { apply sumQc_pos.
    - apply List.Forall_forall. intros x Hx. apply in_map_iff in Hx as (b & <- & Hb). auto.
    - apply List.Exists_exists. exists (density a). split; [by apply in_map|done]. }
  rewrite (map_ext _ (fun u => density u * / sumQc (map density alts)))
    by (intros u; apply misWeight_ratio).
  rewrite sumQc_scale. apply Qcmult_inv_r.
  intros Heq. rewrite Heq in Htotal. by apply (Qclt_not_eq 0 0).
Qed.

End Weights.

Example sample_alternatives :
  validAlternatives Sample.sampleValid 2 = [(0, 2); (2, 0)]%nat.
Proof. reflexivity. Qed.

Example sample_weights :
  map (misWeight Sample.sampleValid Sample.sampleDensity 2)
      (validAlternatives Sample.sampleValid 2)
  = [Q2Qc (3 # 4); Q2Qc (1 # 4)].
Proof. simpl. repeat f_equal; by apply Qc_is_canon. Qed.

Lemma misWeight_sum_witness :
  sumQc (map (misWeight Sample.sampleValid Sample.sampleDensity 2)
             (validAlternatives Sample.sampleValid 2)) = 1.
Proof.
  apply (misWeight_sum Sample.sampleValid Sample.sampleDensity 2).
  - intros a Hin. simpl in Hin. destruct Hin as [<-|[<-|[]]]; by vm_compute.
  - exists (0, 2)%nat. split; [simpl; by left|by vm_compute].
Defined.

End MisFacts.

Module RouletteFacts.
Import Shared Bdpt.
Local Open Scope Qc_scope.

Lemma vsum_app (l1 l2 : list Vec3f) : vsum (l1 ++ l2) = vadd (vsum l1) (vsum l2).
Proof.
  induction l1 as [|v l1 IH]; simpl.
  - destruct (vsum l2). unfold vadd; simpl. f_equal; ring.
  - rewrite IH. unfold vadd; simpl. f_equal; ring.
Qed.

Lemma vsum_const {A} (v : Vec3f) (l : list A) :
  vsum (map (fun _ => v) l) = vscale (Qc_of_Z (Z.of_nat (length l))) v.
Proof.
  induction l as [|a l IH].
  - cbn [map length vsum foldr]. change (Z.of_nat 0) with 0%Z. rewrite Z2Qc_inj_0.
    unfold vscale, vmap, vzero; simpl. f_equal; ring.
  - cbn [map vsum foldr length]. fold (vsum (map (fun _ : A => v) l)). rewrite IH.
    rewrite Nat2Z.inj_succ, <- Z.add_1_r, Z2Qc_inj_add, Z2Qc_inj_1.
    unfold vadd, vscale, vmap; simpl. f_equal; ring.
Qed.

Lemma grid_lt (n i k : nat) :
  (0 < n)%nat ->
  Qc_of_Z (Z.of_nat i) / Qc_of_Z (Z.of_nat n) < Qc_of_Z (Z.of_nat k) / Qc_of_Z (Z.of_nat n)
  <-> (i < k)%nat.
Proof.
  intros Hn.
  assert (HN : 0 < / Qc_of_Z (Z.of_nat n)).
  { apply Qcinv_pos. rewrite <- Z2Qc_inj_0.
    apply (proj1 (Z2Qc_inj_lt 0 (Z.of_nat n))). lia. }
  unfold Qcdiv. rewrite <- Qcmult_lt_mono_pos_r by done.
  rewrite <- Z2Qc_inj_lt. lia.
Qed.

(** Over the [n] equally likely values [0/n, ..., (n-1)/n] of the random
    number, the step with continuation probability [k/n] carries the
    throughput on unchanged in the mean. *)
Lemma gridMean_unbiased (n k : nat) (throughput : Vec3f) :
  (0 < k <= n)%nat ->
  gridMean n (Qc_of_Z (Z.of_nat k) / Qc_of_Z (Z.of_nat n)) throughput = throughput.
Proof.
  intros [Hk Hn]. unfold gridMean.
  set (p := Qc_of_Z (Z.of_nat k) / Qc_of_Z (Z.of_nat n)).
  fold (vsum (map (fun i => carried (roulette p (Qc_of_Z (Z.of_nat i) / Qc_of_Z (Z.of_nat n))
                                              throughput)) (seq 0 n))).
  replace n with (k + (n - k))%nat at 2 by lia.
  rewrite seq_app, map_app, vsum_app. simpl.
  rewrite (map_ext_in _ (fun _ => vdiv throughput p)).
  2:{ intros i Hi. apply in_seq in Hi. unfold roulette.
      destruct (decide _) as [|Hno]; [done|]. destruct Hno. apply grid_lt; lia. }
  rewrite (map_ext_in _ (fun _ => vzero) (seq k (n - k))).
  2:{ intros i Hi. apply in_seq in Hi. unfold roulette.
      destruct (decide _) as [Hlt|]; [|done]. apply grid_lt in Hlt; lia. }
  rewrite !vsum_const, !length_seq.
  assert (HK : Qc_of_Z (Z.of_nat k) <> 0).
  { rewrite <- Z2Qc_inj_0. intros H. apply Z2Qc_inj in H. lia. }
  assert (HN : Qc_of_Z (Z.of_nat n) <> 0).
  { rewrite <- Z2Qc_inj_0. intros H. apply Z2Qc_inj in H. lia. }
  destruct throughput as [a b c]. unfold p, vscale, vdiv, vadd, vmap, vzero; simpl.
  f_equal; field; auto.
Qed.

Lemma continuationProbability_range (luminance : Qc) :
  0 < luminance ->
  0 < continuationProbability luminance /\ continuationProbability luminance <= 1.
Proof.
  intros H. unfold continuationProbability. destruct (decide _); [done|].
  split; done.
Qed.

(** C2. For a continuation probability [p] in (0, 1], the roulette step
    divides the throughput by [p] whenever the path survives (the random
    number is below [p]) and terminates otherwise; survival has probability
    [p] and termination [1 - p], both non-negative; and the expectation over
    these two outcomes is the throughput itself, so in no channel above it.
    The same holds of the mean of the step over [n] equally likely random
    numbers when [p = k/n].  The probability computed by the path
    constructors, [min(1, luminance)] of a throughput of positive luminance,
    lies in (0, 1]. *)
Theorem roulette_unbiased (p : Qc) (throughput : Vec3f) :
  0 < p -> p <= 1 ->
  (forall u, u < p -> roulette p u throughput = Some (vdiv throughput p))
  /\ (forall u, p <= u -> roulette p u throughput = None)
  /\ 0 <= 1 - p
  /\ sumQc (map fst (rouletteOutcomes p throughput)) = 1
  /\ expectation (rouletteOutcomes p throughput) = throughput
  /\ vle (expectation (rouletteOutcomes p throughput)) throughput
  /\ (forall n k : nat, (0 < k <= n)%nat ->
        p = Qc_of_Z (Z.of_nat k) / Qc_of_Z (Z.of_nat n) ->
        gridMean n p throughput = throughput)
  /\ (forall luminance, 0 < luminance ->
        0 < continuationProbability luminance
        /\ continuationProbability luminance <= 1
        /\ expectation (rouletteOutcomes (continuationProbability luminance) throughput)
           = throughput).
Proof.
  intros Hpos Hle.
  assert (E : forall q, 0 < q -> expectation (rouletteOutcomes q throughput) = throughput).
  { intros q Hq. assert (q <> 0) by (intros ->; by apply (Qclt_not_eq 0 0)).
    destruct throughput as [a b c].
    unfold expectation, rouletteOutcomes, carried, vadd, vscale, vdiv, vmap, vzero; simpl.
    f_equal; field; auto. }
  split; [|split; [|split; [|split; [|split; [|split; [|split]]]]]].
  - intros u Hu. unfold roulette. by destruct (decide _).
  - intros u Hu. unfold roulette. destruct (decide _) as [Hlt|]; [|done].
    by apply Qcle_not_lt in Hu.
  - apply Qcle_minus_iff in Hle. exact Hle.
  - simpl. ring.
  - by apply E.
  - rewrite E by done. repeat split; apply Qcle_refl.
  - intros n k Hk ->. by apply gridMean_unbiased.
  - intros luminance Hl.
    destruct (continuationProbability_range luminance Hl) as [Hp Hp1].
    repeat split; try done. by apply E.
Qed.

Example roulette_survives :
  roulette Sample.half (Q2Qc (1 # 4)) Sample.sampleThroughput
  = Some (vdiv Sample.sampleThroughput Sample.half).
Proof. reflexivity. Qed.

Example roulette_terminates :
  roulette Sample.half Sample.half Sample.sampleThroughput = None.
Proof. reflexivity. Qed.

Lemma roulette_unbiased_witness :
  0 < Sample.half /\ Sample.half <= 1
  /\ expectation (rouletteOutcomes Sample.half Sample.sampleThroughput)
     = Sample.sampleThroughput.
Proof.
  assert (Hpos : 0 < Sample.half) by (by vm_compute).
  assert (Hle : Sample.half <= 1) by (by vm_compute).
  split; [exact Hpos|]. split; [exact Hle|].
  exact (proj1 (proj2 (proj2 (proj2 (proj2
    (roulette_unbiased Sample.half Sample.sampleThroughput Hpos Hle)))))).
Defined.

End RouletteFacts.

(** ** More about [RendererStatus::toJson] *)

Module JsonFacts.
Import Shared.

(** The member names of an object, in order. *)
Lemma toJson_object (st : RendererStatus) :
  toJson st
  = kObject
      ([("state", kString (renderStateToString (state st)));
        ("current_spp", kNumber (currentSpp st));
        ("next_spp", kNumber (nextSpp st));
        ("total_spp", kNumber (totalSpp st));
        ("current_scene", kString (asString (currentScene st)))]
       ++ (if empty (completedScenes st) then []
           else [("completed_scenes",
                  kArray (map (fun p => kString (asString p)) (completedScenes st)))])
       ++ (if empty (queuedScenes st) then []
           else [("queued_scenes",
                  kArray (map (fun p => kString (asString p)) (queuedScenes st)))])).
Proof.
  destruct st as [s c n t completed cur queue]; unfold toJson; simpl.
  destruct completed, queue; simpl; rewrite ?SharedFacts.pathArray_map; reflexivity.
Qed.

Lemma kString_paths_inj (ps qs : list Path) :
  map (fun p => kString (asString p)) ps = map (fun p => kString (asString p)) qs ->
  map asString ps = map asString qs.
Proof.
  revert qs. induction ps as [|p ps IH]; intros [|q qs]; simpl; try discriminate; [done|].
  intros [= Hp Hrest]. f_equal; auto.
Qed.

Lemma tail_members_inj (ca cb qa qb : list Path) :
  (if empty ca then []
   else [("completed_scenes", kArray (map (fun p => kString (asString p)) ca))])
  ++ (if empty qa then []
      else [("queued_scenes", kArray (map (fun p => kString (asString p)) qa))])
  = (if empty cb then []
     else [("completed_scenes", kArray (map (fun p => kString (asString p)) cb))])
    ++ (if empty qb then []
        else [("queued_scenes", kArray (map (fun p => kString (asString p)) qb))]) ->
  map asString ca = map asString cb /\ map asString qa = map asString qb.
Proof.
  destruct ca as [|c1 ca], cb as [|c2 cb], qa as [|q1 qa], qb as [|q2 qb];
    simpl; intros H; try discriminate H; simplify_eq;
    repeat match goal with
           | H : map _ _ = map _ _ |- _ => apply kString_paths_inj in H
           end;
    split; congruence.
Qed.

(** X1. No member name occurs twice in the object that [toJson] builds, and
    the object has five members plus one for each non-empty container. *)
Theorem toJson_names_distinct (st : RendererStatus) :
  exists ms,
    toJson st = kObject ms
    /\ NoDup (map fst ms)
    /\ length ms
       = (5 + (if empty (completedScenes st) then 0 else 1)
            + (if empty (queuedScenes st) then 0 else 1))%nat.
Proof.
  eexists. split; [apply toJson_object|].
  destruct (completedScenes st), (queuedScenes st); simpl;
    (split; [|reflexivity]);
    repeat (apply NoDup_cons_2;
            [rewrite ?elem_of_cons, elem_of_nil; intuition discriminate|]);
    apply NoDup_nil_2.
Qed.

(** X2. [toJson] loses nothing but the numeric value of an unknown state:
    two statuses with the same JSON have the same sample counts, the same
    current scene, the same completed and the same queued scenes in the
    same order, and states of the same name, which are equal when both are
    enumerators of [RenderState]. *)
Theorem toJson_injective (a b : RendererStatus) :
  toJson a = toJson b ->
  currentSpp a = currentSpp b
  /\ nextSpp a = nextSpp b
  /\ totalSpp a = totalSpp b
  /\ asString (currentScene a) = asString (currentScene b)
  /\ map asString (completedScenes a) = map asString (completedScenes b)
  /\ map asString (queuedScenes a) = map asString (queuedScenes b)
  /\ renderStateToString (state a) = renderStateToString (state b)
  /\ ((state a = STATE_LOADING \/ state a = STATE_RENDERING) ->
      (state b = STATE_LOADING \/ state b = STATE_RENDERING) ->
      state a = state b).
Proof.
  rewrite !toJson_object. intros [= Hs Hc Hn Ht Hcur Htail].
  apply tail_members_inj in Htail as [Hdone Hqueue].
  repeat split; try assumption.
  unfold renderStateToString in Hs. intros [Ha|Ha] [Hb|Hb]; rewrite Ha, Hb in *;
    simpl in Hs; congruence.
Qed.

Lemma toJson_injective_witness :
  map asString
      (queuedScenes (mkStatus STATE_RENDERING 16 32 64 [mkPath "a.json"]
                              (mkPath "b.json") [mkPath "c.json"]))
  = ["c.json"].
Proof.
  exact (proj1 (proj2 (proj2 (proj2 (proj2 (proj2
    (toJson_injective
       (mkStatus STATE_RENDERING 16 32 64 [mkPath "a.json"] (mkPath "b.json")
                 [mkPath "c.json"])
       (mkStatus STATE_RENDERING 16 32 64 [mkPath "a.json"] (mkPath "b.json")
                 [mkPath "c.json"])
       eq_refl))))))).
Defined.

End JsonFacts.

(** ** Facts about [formatTime] *)

Module FormatTimeFacts.
Import Shared FormatTime SampleEdge.

Lemma append_assoc (a b c : string) : ((a ++ b) ++ c = a ++ (b ++ c))%string.
Proof. induction a as [|ch a IH]; simpl; [reflexivity|]. by rewrite IH. Qed.

Lemma append_empty_r (a : string) : (a ++ "" = a)%string.
Proof. induction a as [|ch a IH]; simpl; [reflexivity|]. by rewrite IH. Qed.

Section Facts.
Variable double : Type.
Variable to_uint64 : double -> Z.
Variable minus_uint64 : double -> Z -> double.
Variable times_1000f : double -> double.
Variable showDouble : double -> string.

(** X3. A duration of less than one second is printed as the [double]
    itself followed by ["s"].  From one second on the text is made of the
    fields days, hours, minutes, seconds and milliseconds: hours below 24,
    minutes and seconds below 60, milliseconds below 1000; days, hours,
    minutes and seconds add up to the whole seconds of the duration (days
    are not negative when these are not); and a field is left out only
    while it and every larger unit is zero. *)
Theorem formatTime_fields (elapsed : double) :
  if to_uint64 elapsed =? 0
  then formatTime double to_uint64 minus_uint64 times_1000f showDouble elapsed
       = (showDouble elapsed ++ "s")%string
  else
    exists d h m s ms : Z,
      0 <= h < 24 /\ 0 <= m < 60 /\ 0 <= s < 60 /\ 0 <= ms < 1000
      /\ d * 86400 + h * 3600 + m * 60 + s = to_uint64 elapsed
      /\ (0 <= to_uint64 elapsed -> 0 <= d)
      /\ formatTime double to_uint64 minus_uint64 times_1000f showDouble elapsed
         = ((if (d =? 0)%Z then "" else showInt d ++ "d ")
            ++ (if ((d =? 0) && (h =? 0))%Z then "" else showInt h ++ "h ")
            ++ (if ((d =? 0) && (h =? 0) && (m =? 0))%Z then ""
                else showInt m ++ "m ")
            ++ showInt s ++ "s " ++ showInt ms ++ "ms")%string.
Proof.
  unfold formatTime.
  set (seconds := to_uint64 elapsed).
  set (minutes := seconds / 60). set (hours := minutes / 60). set (days := hours / 24).
  destruct (seconds =? 0) eqn:Hs.
  - apply Z.eqb_eq in Hs.
    assert (minutes = 0) as -> by (unfold minutes; rewrite Hs; reflexivity).
    assert (hours = 0) as -> by reflexivity.
    reflexivity.
  - exists days, (hours mod 24), (minutes mod 60), (seconds mod 60),
      (to_uint64 (times_1000f (minus_uint64 elapsed seconds)) mod 1000).
    pose proof (Z.mod_pos_bound hours 24 ltac:(lia)).
    pose proof (Z.mod_pos_bound minutes 60 ltac:(lia)).
    pose proof (Z.mod_pos_bound seconds 60 ltac:(lia)).
    pose proof (Z.mod_pos_bound (to_uint64 (times_1000f (minus_uint64 elapsed seconds)))
                                1000 ltac:(lia)).
    pose proof (Z.div_mod hours 24 ltac:(lia)) as Hh. fold days in Hh.
    pose proof (Z.div_mod minutes 60 ltac:(lia)) as Hm. fold hours in Hm.
    pose proof (Z.div_mod seconds 60 ltac:(lia)) as Hsec. fold minutes in Hsec.
    repeat split; try lia.
    assert (Eh : (hours =? 0) = (days =? 0) && (hours mod 24 =? 0)).
    { destruct (hours =? 0) eqn:E1, (days =? 0) eqn:E2, (hours mod 24 =? 0) eqn:E3;
        try reflexivity; rewrite ?Z.eqb_eq, ?Z.eqb_neq in *; lia. }
    assert (Em : (minutes =? 0)
                 = (days =? 0) && (hours mod 24 =? 0) && (minutes mod 60 =? 0)).
    { rewrite <- Eh.
      destruct (minutes =? 0) eqn:E1, (hours =? 0) eqn:E2, (minutes mod 60 =? 0) eqn:E3;
        try reflexivity; rewrite ?Z.eqb_eq, ?Z.eqb_neq in *; lia. }
    rewrite Eh, Em.
    destruct (days =? 0), (hours mod 24 =? 0), (minutes mod 60 =? 0); simpl;
      rewrite ?append_assoc; reflexivity.
Qed.

End Facts.

Example formatTime_day :
  formatTime Q wholePart (fun q z => (q - inject_Z z)%Q) (fun q => (q * 1000)%Q)
             (fun _ => "<elapsed>") (187569 # 2)
  = "1d 2h 3m 4s 500ms".
Proof. reflexivity. Qed.

Example formatTime_hour :
  formatTime Q wholePart (fun q z => (q - inject_Z z)%Q) (fun q => (q * 1000)%Q)
             (fun _ => "<elapsed>") (3600 # 1)
  = "1h 0m 0s 0ms".
Proof. reflexivity. Qed.

Example formatTime_short :
  formatTime Q wholePart (fun q z => (q - inject_Z z)%Q) (fun q => (q * 1000)%Q)
             (fun _ => "<elapsed>") (1 # 4)
  = "<elapsed>s".
Proof. reflexivity. Qed.

End FormatTimeFacts.

(** ** Facts about the constructor and [setup] *)

Module StartupFacts.
Import Shared Startup.

Section Facts.
Variable E : Env.
Variable idealThreadCount : Z.
Variable max : Z -> Z -> Z.
Variable atoi : string -> Z.
Variable newPath : string -> Path.
Variable defaultPath : Path.
Variable freezeWorkingDirectory : Path -> Path.
Variable absolute : Path -> Path.

Lemma emplace_all (ops : list string) :
  forall r : StandaloneRenderer E,
    let r' := fold_left (fun r p => emplace_back E newPath p r) ops r in
    queuedScenes (_status r') = queuedScenes (_status r) ++ map newPath ops
    /\ completedScenes (_status r') = completedScenes (_status r)
    /\ currentScene (_status r') = currentScene (_status r)
    /\ state (_status r') = state (_status r)
    /\ currentSpp (_status r') = currentSpp (_status r)
    /\ nextSpp (_status r') = nextSpp (_status r)
    /\ totalSpp (_status r') = totalSpp (_status r)
    /\ _parser r' = _parser r /\ _logStream r' = _logStream r
    /\ _checkpointInterval r' = _checkpointInterval r
    /\ _threadCount r' = _threadCount r
    /\ _outputDirectory r' = _outputDirectory r
    /\ _scene r' = _scene r /\ _flattenedScene r' = _flattenedScene r.
Proof.
  induction ops as [|p ops IH]; intros r; cbn [fold_left map].
  - rewrite app_nil_r. by repeat split.
  - destruct (IH (emplace_back E newPath p r))
      as (Q & C & Cur & S & S1 & S2 & S3 & P & L & I & T & O & Sc & F).
    cbv zeta. rewrite Q, C, Cur, S, S1, S2, S3, P, L, I, T, O, Sc, F. cbn.
    rewrite <- app_assoc. by repeat split.
Qed.

(** X4. [setup] prints the help text and exits with status 0, before
    anything else happens, exactly when there is no operand or help was
    asked for.  Otherwise it initialises embree and starts the embree and
    the pool threads with the thread count it leaves in the renderer, puts
    the operands behind the scenes already queued, in command-line order,
    and leaves the rest of the status, the log and the loaded scene alone. *)
Theorem setup_outcome (r : StandaloneRenderer E) :
  if empty (operands (_parser r)) || isPresent (_parser r) OPT_HELP
  then setup E atoi newPath freezeWorkingDirectory absolute r
       = ([PrintHelpText; Exit 0], None)
  else
    exists r',
      setup E atoi newPath freezeWorkingDirectory absolute r
      = ([RtcInit; RtcStartThreads (_threadCount r'); StartThreads (_threadCount r')],
         Some r')
      /\ queuedScenes (_status r')
         = queuedScenes (_status r) ++ map newPath (operands (_parser r))
      /\ completedScenes (_status r') = completedScenes (_status r)
      /\ currentScene (_status r') = currentScene (_status r)
      /\ state (_status r') = state (_status r)
      /\ currentSpp (_status r') = currentSpp (_status r)
      /\ nextSpp (_status r') = nextSpp (_status r)
      /\ totalSpp (_status r') = totalSpp (_status r)
      /\ _parser r' = _parser r /\ _logStream r' = _logStream r
      /\ _scene r' = _scene r /\ _flattenedScene r' = _flattenedScene r.
Proof.
  unfold setup.
  destruct (empty (operands (_parser r)) || isPresent (_parser r) OPT_HELP);
    [reflexivity|].
  cbv zeta.
  match goal with |- context [fold_left ?f ?ops ?r0] =>
    destruct (emplace_all ops r0)
      as (Q & C & Cur & S & S1 & S2 & S3 & P & L & I & T & O & Sc & F);
    exists (fold_left f ops r0) end.
  rewrite Q, C, Cur, S, S1, S2, S3, P, L, Sc, F, T.
  split.
  { destruct (isPresent (_parser r) OPT_THREADS),
      (isPresent (_parser r) OPT_CHECKPOINTS),
      (isPresent (_parser r) OPT_OUTPUT_DIRECTORY);
      try destruct (0 <? atoi _); reflexivity. }
  destruct (isPresent (_parser r) OPT_THREADS),
    (isPresent (_parser r) OPT_CHECKPOINTS),
    (isPresent (_parser r) OPT_OUTPUT_DIRECTORY);
    try destruct (0 <? atoi _); by repeat split.
Qed.

(** X5. When [setup] returns, the thread count is the number given with
    [-t] if that option is present and [atoi] makes a positive number of
    it, and is unchanged otherwise, so a positive thread count stays
    positive; the checkpoint interval is whatever [atoi] makes of [-c] if
    that option is present, and is unchanged otherwise; the output
    directory is the absolute path of [-o] if present. *)
Theorem setup_options (r r' : StandaloneRenderer E) (effects : list effect) :
  setup E atoi newPath freezeWorkingDirectory absolute r = (effects, Some r') ->
  _threadCount r'
  = (if isPresent (_parser r) OPT_THREADS
        && (0 <? atoi (param (_parser r) OPT_THREADS))
     then atoi (param (_parser r) OPT_THREADS) else _threadCount r)
  /\ (0 < _threadCount r -> 0 < _threadCount r')
  /\ _checkpointInterval r'
     = (if isPresent (_parser r) OPT_CHECKPOINTS
        then atoi (param (_parser r) OPT_CHECKPOINTS) else _checkpointInterval r)
  /\ _outputDirectory r'
     = (if isPresent (_parser r) OPT_OUTPUT_DIRECTORY
        then absolute (freezeWorkingDirectory
                         (newPath (param (_parser r) OPT_OUTPUT_DIRECTORY)))
        else _outputDirectory r).
Proof.
  unfold setup.
  destruct (empty (operands (_parser r)) || isPresent (_parser r) OPT_HELP);
    [discriminate|].
  cbv zeta. intros [= _ <-].
  match goal with |- context [fold_left ?f ?ops ?r0] =>
    destruct (emplace_all ops r0)
      as (Q & C & Cur & S & S1 & S2 & S3 & P & L & I & T & O & Sc & F) end.
  rewrite I, T, O.
  destruct (isPresent (_parser r) OPT_THREADS),
    (isPresent (_parser r) OPT_CHECKPOINTS),
    (isPresent (_parser r) OPT_OUTPUT_DIRECTORY);
    try destruct (0 <? atoi (param (_parser r) OPT_THREADS)) eqn:Hpos;
    cbn; repeat split; try done; intros _; by apply Z.ltb_lt.
Qed.

(** X6. With [max] the larger of its arguments, the constructor leaves a
    thread count of [max(idealThreadCount - 1, 1)], hence at least 1, when
    the host reports between 1 and 2^31 threads, and only then.  The
    subtraction is unsigned: when the host reports none, the thread count
    is -1. *)
Theorem construct_threadCount (parser : CliParser) (logStream : list string) :
  (forall a b, max a b = Z.max a b) ->
  0 <= idealThreadCount < 2 ^ 32 ->
  let r := snd (construct E idealThreadCount max defaultPath parser logStream) in
  (idealThreadCount = 0 -> _threadCount r = -1)
  /\ (1 <= idealThreadCount <= 2 ^ 31 ->
      _threadCount r = Z.max (idealThreadCount - 1) 1)
  /\ (0 < _threadCount r <-> 1 <= idealThreadCount <= 2 ^ 31)
  /\ _checkpointInterval r = 0
  /\ queuedScenes (_status r) = [] /\ completedScenes (_status r) = []
  /\ _scene r = None /\ _flattenedScene r = None.
Proof.
  intros Hmax Hrange. cbn. rewrite Hmax.
  change (2 ^ 32) with 4294967296 in *. change (2 ^ 31) with 2147483648 in *.
  assert (V : int32 (Z.max (uint32 (idealThreadCount - 1)) 1)
              = if idealThreadCount =? 0 then -1
                else if idealThreadCount <=? 2147483648
                     then Z.max (idealThreadCount - 1) 1
                     else Z.max (idealThreadCount - 1) 1 - 4294967296).
  { unfold int32, uint32.
    change (2 ^ 32) with 4294967296. change (2 ^ 31) with 2147483648.
    destruct (idealThreadCount =? 0) eqn:E0.
    - apply Z.eqb_eq in E0. subst. reflexivity.
    - apply Z.eqb_neq in E0.
      rewrite (Z.mod_small (idealThreadCount - 1)) by lia.
      destruct (idealThreadCount <=? 2147483648) eqn:E1.
      + apply Z.leb_le in E1. rewrite Z.mod_small by lia. lia.
      + apply Z.leb_gt in E1.
        replace ((Z.max (idealThreadCount - 1) 1 + 2147483648) mod 4294967296)
          with (Z.max (idealThreadCount - 1) 1 + 2147483648 - 4294967296); [lia|].
        apply Z.mod_unique with 1; lia. }
  rewrite V.
  destruct (idealThreadCount =? 0) eqn:E0;
    [apply Z.eqb_eq in E0|apply Z.eqb_neq in E0];
    (destruct (idealThreadCount <=? 2147483648) eqn:E1;
     [apply Z.leb_le in E1|apply Z.leb_gt in E1]);
    (split; [|split; [|split; [split|]]]); try done; try lia.
Qed.

End Facts.
Example setup_sample :
  setup Sample.sampleEnv SampleEdge.sampleAtoi mkPath id id SampleEdge.fresh
  = ([RtcInit; RtcStartThreads 4; StartThreads 4], Some SampleEdge.queued).
Proof. reflexivity. Qed.

Lemma setup_options_witness :
  setup Sample.sampleEnv SampleEdge.sampleAtoi mkPath id id SampleEdge.fresh
  = ([RtcInit; RtcStartThreads 4; StartThreads 4], Some SampleEdge.queued)
  /\ _threadCount SampleEdge.queued = 4
  /\ _checkpointInterval SampleEdge.queued = 15.
Proof.
  split; [reflexivity|].
  pose proof (setup_options Sample.sampleEnv SampleEdge.sampleAtoi mkPath id id
                SampleEdge.fresh SampleEdge.queued
                [RtcInit; RtcStartThreads 4; StartThreads 4] eq_refl)
    as (Ht & _ & Hc & _).
  split; [exact Ht|exact Hc].
Defined.

Lemma construct_threadCount_witness :
  0 < _threadCount (snd (construct Sample.sampleEnv 8 Z.max (mkPath "")
                                   Sample.sampleParser [])).
Proof.
  pose proof (construct_threadCount Sample.sampleEnv 8 Z.max (mkPath "")
                Sample.sampleParser [] (fun a b => eq_refl)
                (conj (Zle_0_pos 8) eq_refl)) as H.
  cbv zeta in H. destruct H as (_ & _ & Hiff & _).
  apply Hiff. split; [lia|discriminate].
Defined.

End StartupFacts.

(** ** More about [renderScene] *)

Module RenderSceneFrame.
Import Shared Props Frame.
Import RenderSceneFacts.

(** Closes a goal about a renderer written out in full. *)
Ltac framed :=
  unfold body_frame, entered, inside, configured, appended, steady; cbn;
  repeat split; try reflexivity; try (intros; reflexivity); try discriminate;
  first [ by (exists []; rewrite app_nil_r)
        | eexists; rewrite <- ?app_assoc; reflexivity ].

Section Facts.
Variable E : Env.

Lemma appended_trans (r1 r2 r3 : StandaloneRenderer E) :
  appended r1 r2 -> appended r2 r3 -> appended r1 r3.
Proof.
  intros [l1 H1] [l2 H2]. exists (l1 ++ l2). by rewrite H2, H1, app_assoc.
Qed.

Lemma configured_trans (r1 r2 r3 : StandaloneRenderer E) :
  configured r1 r2 -> configured r2 r3 -> configured r1 r3.
Proof. unfold configured. intros (a & b & c) (d & e & f). repeat split; congruence. Qed.

Lemma inside_trans (r1 r2 r3 : StandaloneRenderer E) :
  inside r1 r2 -> inside r2 r3 -> inside r1 r3.
Proof.
  intros (C1 & A1 & I1 & S1) (C2 & A2 & I2 & S2).
  split; [by eapply configured_trans|].
  split; [by eapply appended_trans|].
  split; [congruence|].
  destruct S1 as (a & b & c), S2 as (d & e & f). repeat split; congruence.
Qed.

Lemma renderLoop_inside :
  forall (fuel round : nat) maxSpp sc i tot (r : StandaloneRenderer E),
    inside r (snd (renderLoop E fuel round maxSpp sc i tot r)).
Proof.
  induction fuel as [|fuel IH]; intros round maxSpp sc i tot r;
    cbn [renderLoop]; destruct (done E i); try (run; framed).
  run. destruct (renderPass E i) as [i1|e]; [|framed].
  match goal with |- context [if ?a && ?b then _ else _] => destruct (a && b) end.
  2:{ eapply inside_trans; [|apply IH]. framed. }
  destruct (saveCheckpoint E i1) as [i2|e]; [|framed].
  destruct (enableResumeRender E sc).
  - destruct (saveRenderResumeData E sc i2) as [i3|e]; [|framed].
    eapply inside_trans; [|apply IH]. framed.
  - eapply inside_trans; [|apply IH]. framed.
Qed.

Lemma resume_inside restart sc i (r : StandaloneRenderer E) :
  inside r (snd (resume E restart sc i r)).
Proof.
  unfold resume. destruct (enableResumeRender E sc && negb restart); run; [|framed].
  destruct (resumeRender E sc i) as [[ok i']|e]; cbn [fst snd]; [|framed].
  destruct ok; framed.
Qed.

Lemma finish_frame p sc i (r : StandaloneRenderer E) :
  body_frame p true r (finish E p sc i r).
Proof.
  unfold finish. run.
  destruct (saveOutputs E i) as [i1|e]; [|framed].
  destruct (enableResumeRender E sc); [|framed].
  destruct (saveRenderResumeData E sc i1) as [i2|e]; framed.
Qed.

Lemma body_frame_inside p (r r1 : StandaloneRenderer E)
    (res : outcome unit * StandaloneRenderer E) :
  inside r r1 -> body_frame p true r1 res -> body_frame p true r res.
Proof.
  intros (C1 & A1 & I1 & Q1 & Cu1 & D1) (C2 & A2 & Q2 & Cu2 & I2 & O2).
  split; [by eapply configured_trans|].
  split; [by eapply appended_trans|].
  split; [congruence|]. split; [congruence|].
  split; [intros H; rewrite (I2 H); congruence|].
  destruct (fst res); congruence.
Qed.

Lemma body_frame_entered p present (r r1 : StandaloneRenderer E)
    (res : outcome unit * StandaloneRenderer E) :
  entered present r r1 -> body_frame p true r1 res -> body_frame p present r res.
Proof.
  intros (C1 & A1 & (Q1 & Cu1 & D1) & I1) (C2 & A2 & Q2 & Cu2 & I2 & O2).
  split; [by eapply configured_trans|].
  split; [by eapply appended_trans|].
  split; [congruence|]. split; [congruence|].
  split; [intros H; rewrite (I2 eq_refl); by apply I1|].
  destruct (fst res); congruence.
Qed.

Lemma body_frame_stopped p (r r2 : StandaloneRenderer E) (o : outcome unit) :
  inside r r2 -> (forall u, o <> Done u) -> body_frame p true r (o, r2).
Proof.
  intros (C & A & I & Q & Cu & D) Ho. repeat split; try done; try apply C.
  destruct o; [by destruct (Ho a)|done..].
Qed.

Lemma renderBody_frame (fuel : nat) p sc (r : StandaloneRenderer E) :
  body_frame p (isPresent (_parser r) OPT_CHECKPOINTS) r (renderBody E fuel p sc r).
Proof.
  unfold renderBody.
  set (sc' := if isPresent (_parser r) OPT_OUTPUT_DIRECTORY
              then setOutputDirectory E (_outputDirectory r) sc else sc).
  cbv zeta. run.
  destruct (makeTraceable E sc') as [i|e]; [|framed].
  assert (Tail : forall r1, entered (isPresent (_parser r) OPT_CHECKPOINTS) r r1 ->
            body_frame p (isPresent (_parser r) OPT_CHECKPOINTS) r
              (bind E (resume E (isPresent (_parser r) OPT_RESTART) sc' i) (fun i2 =>
               bind E (writeLogLine E "Starting render...") (fun _ =>
               bind E (renderLoop E fuel 0 (spp E sc') sc' i2 (dzero E)) (fun i4 =>
               finish E p sc' i4))) r1)).
  { intros r1 Hr1. eapply body_frame_entered; [exact Hr1|]. run.
    pose proof (resume_inside (isPresent (_parser r) OPT_RESTART) sc' i r1) as R.
    destruct (resume E (isPresent (_parser r) OPT_RESTART) sc' i r1) as [[i2|e|] r2];
      cbn [fst snd] in *; [|by apply body_frame_stopped..].
    set (r3 := set_logStream E (_logStream r2 ++ ["Starting render..."]) r2).
    assert (S3 : inside r1 r3) by (eapply inside_trans; [exact R|]; framed).
    pose proof (renderLoop_inside fuel 0 (spp E sc') sc' i2 (dzero E) r3) as L.
    destruct (renderLoop E fuel 0 (spp E sc') sc' i2 (dzero E) r3) as [[i4|e|] r4];
      cbn [fst snd] in *.
    - eapply body_frame_inside; [by eapply inside_trans|]. apply finish_frame.
    - apply body_frame_stopped; [by eapply inside_trans|done].
    - apply body_frame_stopped; [by eapply inside_trans|done]. }
  destruct (isPresent (_parser r) OPT_CHECKPOINTS); cbv beta iota;
    apply Tail; framed.
Qed.

Lemma renderScene_frame (fuel : nat) (r : StandaloneRenderer E) front rest :
  queuedScenes (_status r) = front :: rest ->
  scene_frame front rest r (renderScene E fuel r).
Proof.
  intros Q. unfold renderScene. rewrite Q. run.
  destruct (Scene_load E front) as [sc|[what|]];
    [|unfold scene_frame, configured, appended; cbn; repeat split;
      try (intros; reflexivity); try (by left);
      eexists; rewrite <- ?app_assoc; reflexivity..].
  destruct (loadResources E sc) as [sc1|[what|]];
    [|unfold scene_frame, configured, appended; cbn; repeat split;
      try (intros; reflexivity); try (by left);
      eexists; rewrite <- ?app_assoc; reflexivity..].
  match goal with |- context [renderBody E fuel front sc1 ?r1] =>
    pose proof (renderBody_frame fuel front sc1 r1) as B;
    destruct (renderBody E fuel front sc1 r1) as [[[]|[what|]|] r2] end;
    destruct B as ((P & T & O) & [lines A] & Qb & Cb & Ib & Ob);
    unfold scene_frame, configured, appended; cbn in *;
    (split; [by repeat split|]);
    (split; [rewrite A; eexists; rewrite <- ?app_assoc; reflexivity|]);
    (split; [done|]); (split; [done|]); (split; [done|]).
  - right. by split.
  - by left.
  - by left.
  - by left.
Qed.

(** X7. Whatever way a call of [renderScene] ends, even by an exception
    that escapes or inside the render loop, the command line, the thread
    count and the output directory are as before and the log has only
    grown: no line written earlier is changed or removed. *)
Theorem renderScene_keeps (fuel : nat) (r : StandaloneRenderer E) :
  configured r (snd (renderScene E fuel r))
  /\ appended r (snd (renderScene E fuel r)).
Proof.
  destruct (queuedScenes (_status r)) as [|front rest] eqn:Q.
  - unfold renderScene. rewrite Q. cbn. split; [done|]. exists []. by rewrite app_nil_r.
  - destruct (renderScene_frame fuel r front rest Q) as (C & A & _). by split.
Qed.

(** X8. The front scene is taken off the queue before anything can fail:
    however a call on the queue [front :: rest] ends, the queue is [rest]
    and the current scene is [front].  The completed scenes change only
    when the call returns [true], and then only by [front] at their end. *)
Theorem renderScene_pops (fuel : nat) (r : StandaloneRenderer E) :
  match queuedScenes (_status r) with
  | [] => snd (renderScene E fuel r) = r
  | front :: rest =>
      queuedScenes (_status (snd (renderScene E fuel r))) = rest
      /\ currentScene (_status (snd (renderScene E fuel r))) = front
      /\ (completedScenes (_status (snd (renderScene E fuel r)))
          = completedScenes (_status r)
          \/ fst (renderScene E fuel r) = Done true
             /\ completedScenes (_status (snd (renderScene E fuel r)))
                = completedScenes (_status r) ++ [front])
  end.
Proof.
  destruct (queuedScenes (_status r)) as [|front rest] eqn:Q.
  - unfold renderScene. by rewrite Q.
  - destruct (renderScene_frame fuel r front rest Q) as (_ & _ & Hq & Hc & _ & Hd).
    by repeat split.
Qed.

(** X9. A checkpoint interval given on the command line is never
    replaced by the one of a scene file: with [-c] present, no call of
    [renderScene], however it ends, changes [_checkpointInterval]. *)
Theorem renderScene_checkpoint_option (fuel : nat) (r : StandaloneRenderer E) :
  isPresent (_parser r) OPT_CHECKPOINTS = true ->
  _checkpointInterval (snd (renderScene E fuel r)) = _checkpointInterval r.
Proof.
  intros Hc. destruct (queuedScenes (_status r)) as [|front rest] eqn:Q.
  - unfold renderScene. by rewrite Q.
  - destruct (renderScene_frame fuel r front rest Q) as (_ & _ & _ & _ & Hi & _). auto.
Qed.

(** X10. [renderScene] never lets a [std::runtime_error] out: however the
    collaborators behave, it does not end by such an exception. *)
Theorem renderScene_catches (fuel : nat) (r : StandaloneRenderer E) :
  match fst (renderScene E fuel r) with
  | Thrown (runtime_error _) => False
  | _ => True
  end.
Proof.
  unfold renderScene. destruct (queuedScenes (_status r)) as [|front rest]; [done|].
  run.
  destruct (Scene_load E front) as [sc|[w|]]; try done.
  destruct (loadResources E sc) as [sc1|[w|]]; try done.
  match goal with |- context [renderBody E fuel front sc1 ?r1] =>
    destruct (renderBody E fuel front sc1 r1) as [[[]|[w|]|] r2] end; done.
Qed.

End Facts.
Lemma renderScene_checkpoint_option_witness :
  isPresent (_parser SampleEdge.queued) OPT_CHECKPOINTS = true
  /\ _checkpointInterval (snd (renderScene Sample.sampleEnv 3 SampleEdge.queued)) = 15.
Proof.
  split; [reflexivity|].
  exact (renderScene_checkpoint_option Sample.sampleEnv 3 SampleEdge.queued eq_refl).
Defined.

End RenderSceneFrame.

(** ** [frameBuffer] at the edges of the resolution *)

Module FrameBufferEdge.
Import Shared Props.
Import FrameBufferFacts.

Section Facts.
Variable E : Env.

Lemma store_at_end (ldr : list cell) (v : Vec3 Z) :
  store ldr (Z.of_nat (length ldr)) v = None.
Proof.
  unfold store.
  replace (Z.of_nat (length ldr) <? Z.of_nat (length ldr)) with false
    by (symmetry; apply Z.ltb_ge; lia).
  by rewrite andb_false_r.
Qed.

Lemma rowLoop_overrun (sc : Scene E) (res : Vec2) (y : Z) :
  forall (todo x0 : nat) (pre junk : list cell),
    (length junk < todo)%nat ->
    0 <= y * vx res ->
    Z.of_nat (length pre) = Z.of_nat x0 + y * vx res ->
    Z.of_nat (length pre) + Z.of_nat (length junk) < 2 ^ 32 ->
    rowLoop E sc res y todo (Z.of_nat x0) (pre ++ junk) = None.
Proof.
  induction todo as [|todo IH]; intros x0 pre junk Hlen Hy Hpre Hfit; [lia|].
  cbn [rowLoop].
  assert (Hidx : uint32 (Z.of_nat x0 + uint32 (y * vx res)) = Z.of_nat (length pre)).
  { unfold uint32. change (2 ^ 32) with 4294967296 in *.
    rewrite (Z.mod_small (y * vx res)) by lia.
    rewrite Z.mod_small by lia. lia. }
  rewrite Hidx. destruct junk as [|j junk].
  - rewrite app_nil_r. by rewrite store_at_end.
  - rewrite store_middle.
    replace (Z.of_nat x0 + 1) with (Z.of_nat (S x0)) by lia.
    replace (pre ++ Some (ldrPixel E sc (Z.of_nat x0) y) :: junk)
      with ((pre ++ [Some (ldrPixel E sc (Z.of_nat x0) y)]) ++ junk)
      by (by rewrite <- app_assoc).
    apply IH; simpl in *; rewrite ?length_app; simpl; lia.
Qed.

Lemma imageLoop_overrun (sc : Scene E) (res : Vec2) (w : nat) :
  vx res = Z.of_nat w ->
  forall (todo y0 : nat) (pre junk : list cell),
    (length junk < todo * w)%nat ->
    length pre = (y0 * w)%nat ->
    Z.of_nat (length pre) + Z.of_nat (length junk) < 2 ^ 32 ->
    imageLoop E sc res todo (Z.of_nat y0) (pre ++ junk) = None.
Proof.
  intros Hw. induction todo as [|todo IH]; intros y0 pre junk Hlen Hpre Hfit; [lia|].
  cbn [imageLoop]. rewrite Hw, Nat2Z.id.
  destruct (Nat.lt_ge_cases (length junk) w) as [Hshort|Hlong].
  - pose proof (rowLoop_overrun sc res (Z.of_nat y0) w 0%nat pre junk) as R.
    change (Z.of_nat 0) with 0 in R. rewrite R; [done|lia|rewrite Hw; lia..|lia].
  - rewrite <- (take_drop w junk).
    pose proof (rowLoop_fill E sc res (Z.of_nat y0) w 0%nat pre
                  (take w junk) (drop w junk)) as R.
    change (Z.of_nat 0) with 0 in R. rewrite R; clear R.
    + replace (Z.of_nat y0 + 1) with (Z.of_nat (S y0)) by lia.
      rewrite app_assoc. apply IH.
      * rewrite length_drop. lia.
      * rewrite length_app. unfold rowCells. rewrite length_map, length_seq. lia.
      * rewrite length_app, length_drop. unfold rowCells.
        rewrite length_map, length_seq. lia.
    + rewrite length_take. lia.
    + rewrite Hw. lia.
    + rewrite Hw. lia.
    + lia.
Qed.

(** X11. The size of the array and the index of every write are computed
    in 32 bits.  For a resolution whose number of pixels does not fit, the
    array is shorter than the image and [frameBuffer] writes past its end. *)
Theorem frameBuffer_overflow (r : StandaloneRenderer E) (resolution : Vec2)
    (sc : Scene E) (fl : TraceableScene E) :
  _scene r = Some sc -> _flattenedScene r = Some fl ->
  0 < vx (cameraResolution E sc) ->
  2 ^ 32 <= vx (cameraResolution E sc) * vy (cameraResolution E sc) ->
  frameBuffer E r resolution = (OutOfBounds, resolution).
Proof.
  intros Hs Hf Hx Hbig. unfold frameBuffer. rewrite Hs, Hf.
  set (res := cameraResolution E sc) in *. cbv zeta.
  change (2 ^ 32) with 4294967296 in *.
  assert (Hy : 0 < vy res) by nia.
  set (w := Z.to_nat (vx res)). set (h := Z.to_nat (vy res)).
  assert (Hw : vx res = Z.of_nat w) by (unfold w; lia).
  pose proof (Z.mod_pos_bound (vx res * vy res) 4294967296 ltac:(lia)) as Hmod.
  pose proof (imageLoop_overrun sc res w Hw h 0%nat [] (newArray (product res))) as Over.
  change (Z.of_nat 0) with 0 in Over. simpl app in Over.
  rewrite Over; [reflexivity| | |].
  - unfold newArray, product, uint32. rewrite length_replicate.
    change (2 ^ 32) with 4294967296. unfold h, w. nia.
  - reflexivity.
  - unfold newArray, product, uint32. rewrite length_replicate.
    change (2 ^ 32) with 4294967296. simpl. lia.
Qed.

(** X12. For an image without pixels (no column or no row) [frameBuffer]
    returns an array without cells, which is not [nullptr], and sets
    [resolution]. *)
Theorem frameBuffer_no_pixels (r : StandaloneRenderer E) (resolution : Vec2)
    (sc : Scene E) (fl : TraceableScene E) :
  _scene r = Some sc -> _flattenedScene r = Some fl ->
  0 <= vx (cameraResolution E sc) -> 0 <= vy (cameraResolution E sc) ->
  vx (cameraResolution E sc) * vy (cameraResolution E sc) = 0 ->
  frameBuffer E r resolution
  = (Buffer [], mkVec2 (int32 (vx (cameraResolution E sc)))
                       (int32 (vy (cameraResolution E sc)))).
Proof.
  intros Hs Hf Hx Hy Hzero. unfold frameBuffer. rewrite Hs, Hf.
  set (res := cameraResolution E sc) in *. cbv zeta.
  set (w := Z.to_nat (vx res)). set (h := Z.to_nat (vy res)).
  assert (Hw : vx res = Z.of_nat w) by (unfold w; lia).
  assert (Hprod : product res = 0) by (unfold product; rewrite Hzero; reflexivity).
  pose proof (imageLoop_fill E sc res w Hw h 0%nat [] (newArray (product res))) as Fill.
  change (Z.of_nat 0) with 0 in Fill. simpl app in Fill.
  rewrite Fill.
  - replace (imageCells sc w 0 h) with (@nil cell); [reflexivity|].
    symmetry. apply length_zero_iff_nil. rewrite length_imageCells. unfold h, w. nia.
  - rewrite Hprod. simpl. unfold h, w. nia.
  - reflexivity.
  - simpl. change (2 ^ 32) with 4294967296. unfold h, w. nia.
Qed.

End Facts.
Lemma frameBuffer_overflow_witness :
  frameBuffer (SampleEdge.withResolution (mkVec2 65536 65536))
              (SampleEdge.loadedAt (mkVec2 65536 65536)) (mkVec2 0 0)
  = (OutOfBounds, mkVec2 0 0).
Proof.
  apply (frameBuffer_overflow (SampleEdge.withResolution (mkVec2 65536 65536))
           (SampleEdge.loadedAt (mkVec2 65536 65536)) (mkVec2 0 0)
           (Sample.mkScene (mkPath "a.json") 2) (1, 2));
    [reflexivity|reflexivity|reflexivity|discriminate].
Defined.

Lemma frameBuffer_no_pixels_witness :
  frameBuffer (SampleEdge.withResolution (mkVec2 0 5))
              (SampleEdge.loadedAt (mkVec2 0 5)) (mkVec2 7 7)
  = (Buffer [], mkVec2 0 5).
Proof.
  apply (frameBuffer_no_pixels (SampleEdge.withResolution (mkVec2 0 5))
           (SampleEdge.loadedAt (mkVec2 0 5)) (mkVec2 7 7)
           (Sample.mkScene (mkPath "a.json") 2) (1, 2));
    [reflexivity|reflexivity|discriminate|discriminate|reflexivity].
Defined.

End FrameBufferEdge.

(** ** Going through the whole queue *)

Module RenderAllFacts.
Import Shared Props Frame.
Import RenderSceneFacts RenderSceneFrame.

Section Facts.
Variable E : Env.
Variable remaining : TraceableScene E -> nat.

(** Once the render loop has ended within its rounds, more rounds change
    nothing. *)
Lemma renderLoop_stable :
  forall (fuel fuel' : nat), (fuel <= fuel')%nat ->
  forall (round : nat) maxSpp sc i tot (r : StandaloneRenderer E),
    fst (renderLoop E fuel round maxSpp sc i tot r) <> Unfinished ->
    renderLoop E fuel' round maxSpp sc i tot r = renderLoop E fuel round maxSpp sc i tot r.
Proof.
  induction fuel as [|f IH]; intros [|f'] Hle round maxSpp sc i tot r; try lia;
    cbn [renderLoop]; destruct (done E i); try done.
  run. destruct (renderPass E i) as [i1|e]; [|done].
  match goal with |- context [if ?a && ?b then _ else _] => destruct (a && b) end.
  2:{ intros H. apply IH; [lia|exact H]. }
  destruct (saveCheckpoint E i1) as [i2|e]; [|done].
  destruct (enableResumeRender E sc).
  - destruct (saveRenderResumeData E sc i2) as [i3|e]; [|done].
    intros H. apply IH; [lia|exact H].
  - intros H. apply IH; [lia|exact H].
Qed.

Lemma renderBody_stable (fuel fuel' : nat) p sc (r : StandaloneRenderer E) :
  (fuel <= fuel')%nat ->
  fst (renderBody E fuel p sc r) <> Unfinished ->
  renderBody E fuel' p sc r = renderBody E fuel p sc r.
Proof.
  intros Hle. unfold renderBody.
  set (sc' := if isPresent (_parser r) OPT_OUTPUT_DIRECTORY
              then setOutputDirectory E (_outputDirectory r) sc else sc).
  cbv zeta. run.
  destruct (makeTraceable E sc') as [i|e]; [|done].
  destruct (negb (isPresent (_parser r) OPT_CHECKPOINTS)); cbv beta iota;
    match goal with |- context [resume E ?b sc' i ?r1] =>
      destruct (resume E b sc' i r1) as [[i2|e|] r2] end; try done;
    match goal with |- context [renderLoop E fuel 0 ?m sc' ?j ?t ?r3] =>
      intros H;
      rewrite (renderLoop_stable fuel fuel' Hle 0%nat m sc' j t r3); [reflexivity|];
      intros K; destruct (renderLoop E fuel 0 m sc' j t r3) as [[] r4];
      cbn in K; try discriminate; by apply H
    end.
Qed.

Lemma renderScene_stable (fuel fuel' : nat) (r : StandaloneRenderer E) :
  (fuel <= fuel')%nat ->
  fst (renderScene E fuel r) <> Unfinished ->
  renderScene E fuel' r = renderScene E fuel r.
Proof.
  intros Hle. unfold renderScene.
  destruct (queuedScenes (_status r)) as [|front rest]; [done|].
  run.
  destruct (Scene_load E front) as [sc|[w|]]; try done.
  destruct (loadResources E sc) as [sc1|[w|]]; try done.
  match goal with |- context [renderBody E fuel front sc1 ?r1] =>
    intros H;
    rewrite (renderBody_stable fuel fuel' front sc1 r1 Hle); [reflexivity|];
    intros K; destruct (renderBody E fuel front sc1 r1) as [[[]|[w|]|] r2];
    cbn in K; try discriminate; by apply H
  end.
Qed.

Lemma renderScene_returns (r : StandaloneRenderer E) front rest :
  only_runtime_errors E -> integrator_finishes E remaining ->
  queuedScenes (_status r) = front :: rest ->
  exists fuel0 : nat, forall fuel : nat, (fuel0 <= fuel)%nat ->
    fst (renderScene E fuel r) = Done true.
Proof.
  intros ORE FIN Q. pose proof ORE as (Hload & Hres & _).
  unfold renderScene. rewrite Q. run.
  destruct (Scene_load E front) as [sc|[what|]] eqn:L; [| |by destruct (Hload front)].
  2:{ by exists O. }
  destruct (loadResources E sc) as [sc1|[what|]] eqn:LR; [| |by destruct (Hres sc)].
  2:{ by exists O. }
  match goal with |- context [renderBody E _ front sc1 ?r1] =>
    destruct (renderBody_ends E remaining ORE FIN front sc1 r1) as [fuel0 Hbody];
    exists fuel0; intros fuel Hfuel;
    destruct (Hbody fuel Hfuel) as (_ & _ & O2);
    destruct (renderBody E fuel front sc1 r1) as [[[]|[what|]|] r2]
  end; cbn in *; try done. by destruct O2.
Qed.

(** X13. When the collaborators throw nothing but [std::runtime_error] and
    the integrator gets done, calling [renderScene] until it returns
    [false] goes through every queued scene exactly once: it returns [true]
    as many times as there were scenes, leaves the queue empty, and appends
    to the completed scenes some of the queued ones, in their order,
    without changing the configuration or losing a log line. *)
Theorem renderAll_drains (r : StandaloneRenderer E) :
  only_runtime_errors E -> integrator_finishes E remaining ->
  exists fuel0 : nat, forall fuel calls : nat,
    (fuel0 <= fuel)%nat -> (length (queuedScenes (_status r)) < calls)%nat ->
    exists r' finished,
      renderAll E calls fuel r = (Done (length (queuedScenes (_status r))), r')
      /\ queuedScenes (_status r') = []
      /\ sublist finished (queuedScenes (_status r))
      /\ completedScenes (_status r') = completedScenes (_status r) ++ finished
      /\ configured r r' /\ appended r r'.
Proof.
  intros ORE FIN.
  assert (From :
    forall (queue : list Path) (r0 : StandaloneRenderer E),
      queuedScenes (_status r0) = queue ->
      exists fuel0 : nat, forall fuel calls : nat,
        (fuel0 <= fuel)%nat -> (length queue < calls)%nat ->
        exists r' finished,
          renderAll E calls fuel r0 = (Done (length queue), r')
          /\ queuedScenes (_status r') = []
          /\ sublist finished queue
          /\ completedScenes (_status r') = completedScenes (_status r0) ++ finished
          /\ configured r0 r' /\ appended r0 r').
  { induction queue as [|p rest IH]; intros r0 Q.
    - exists O. intros fuel [|calls] _ Hc; [simpl in Hc; lia|].
      exists r0, []. cbn [renderAll]. unfold renderScene. rewrite Q.
      repeat split; try done.
      + by rewrite app_nil_r.
      + exists []. by rewrite app_nil_r.
    - destruct (renderScene_returns r0 p rest ORE FIN Q) as [f1 H1].
      pose proof (renderScene_frame E f1 r0 p rest Q) as (C1 & A1 & Q1 & Cu1 & _ & D1).
      pose proof (H1 f1 (Nat.le_refl f1)) as Hret.
      destruct (renderScene E f1 r0) as [o1 r1] eqn:R1. cbn [fst snd] in *. subst o1.
      destruct (IH r1 Q1) as [f2 H2].
      exists (Nat.max f1 f2). intros fuel [|calls] Hf Hc; [simpl in Hc; lia|].
      assert (R : renderScene E fuel r0 = (Done true, r1)).
      { rewrite (renderScene_stable f1 fuel r0); [exact R1|lia|by rewrite R1]. }
      destruct (H2 fuel calls) as (r' & fin & Hall & Hq & Hsub & Hdone & C2 & A2);
        [lia|simpl in Hc; lia|].
      cbn [renderAll]. rewrite R, Hall.
      destruct D1 as [D1|[_ D1]].
      + exists r', fin. repeat split; try done.
        * by apply sublist_cons.
        * by rewrite Hdone, D1.
        * by eapply configured_trans.
        * by eapply configured_trans.
        * by eapply configured_trans.
        * by eapply appended_trans.
      + exists r', (p :: fin). repeat split; try done.
        * by apply sublist_skip.
        * rewrite Hdone, D1. by rewrite <- app_assoc.
        * by eapply configured_trans.
        * by eapply configured_trans.
        * by eapply configured_trans.
        * by eapply appended_trans. }
  by apply From.
Qed.

End Facts.
Example renderAll_sample :
  exists r',
    renderAll Sample.sampleEnv 3 2
              (Sample.idle [mkPath "missing.json"; mkPath "a.json"])
    = (Done 2%nat, r')
    /\ queuedScenes (_status r') = []
    /\ completedScenes (_status r') = [mkPath "a.json"].
Proof. eexists. split; [vm_compute; reflexivity|]. by split. Qed.

Lemma renderAll_drains_witness :
  only_runtime_errors Sample.sampleEnv
  /\ integrator_finishes Sample.sampleEnv Sample.sampleRemaining
  /\ exists fuel0 : nat, forall fuel calls : nat,
       (fuel0 <= fuel)%nat -> (2 < calls)%nat ->
       exists r' finished,
         renderAll Sample.sampleEnv calls fuel
                   (Sample.idle [mkPath "missing.json"; mkPath "a.json"])
         = (Done 2%nat, r')
         /\ queuedScenes (_status r') = []
         /\ sublist finished [mkPath "missing.json"; mkPath "a.json"]
         /\ completedScenes (_status r') = [] ++ finished
         /\ configured (Sample.idle [mkPath "missing.json"; mkPath "a.json"]) r'
         /\ appended (Sample.idle [mkPath "missing.json"; mkPath "a.json"]) r'.
Proof.
  split; [exact sample_only_runtime_errors|].
  split; [exact sample_integrator_finishes|].
  exact (renderAll_drains Sample.sampleEnv Sample.sampleRemaining
           (Sample.idle [mkPath "missing.json"; mkPath "a.json"])
           sample_only_runtime_errors sample_integrator_finishes).
Defined.

End RenderAllFacts.

(** ** The status and the scene between calls of [renderScene] *)

Module RenderSceneStatus.
Import Shared Props Frame.
Import RenderSceneFacts.

Section Facts.
Variable E : Env.

Lemma renderLoop_totalSpp :
  forall (fuel round : nat) maxSpp sc i tot (r : StandaloneRenderer E),
    totalSpp (_status (snd (renderLoop E fuel round maxSpp sc i tot r)))
    = totalSpp (_status r).
Proof.
  induction fuel as [|fuel IH]; intros round maxSpp sc i tot r;
    cbn [renderLoop]; destruct (done E i); try reflexivity.
  run. destruct (renderPass E i) as [i1|e]; [|reflexivity].
  match goal with |- context [if ?a && ?b then _ else _] => destruct (a && b) end.
  2:{ by rewrite IH. }
  destruct (saveCheckpoint E i1) as [i2|e]; [|reflexivity].
  destruct (enableResumeRender E sc).
  - destruct (saveRenderResumeData E sc i2) as [i3|e]; [|reflexivity]. by rewrite IH.
  - by rewrite IH.
Qed.

Lemma resume_totalSpp restart sc i (r : StandaloneRenderer E) :
  totalSpp (_status (snd (resume E restart sc i r))) = totalSpp (_status r).
Proof.
  unfold resume. destruct (enableResumeRender E sc && negb restart); run; [|reflexivity].
  destruct (resumeRender E sc i) as [[ok i']|e]; cbn [fst snd]; [|reflexivity].
  by destruct ok.
Qed.

Lemma finish_totalSpp p sc i (r : StandaloneRenderer E) :
  totalSpp (_status (snd (finish E p sc i r))) = totalSpp (_status r).
Proof.
  unfold finish. run.
  destruct (saveOutputs E i) as [i1|e]; [|reflexivity].
  destruct (enableResumeRender E sc); [|reflexivity].
  by destruct (saveRenderResumeData E sc i1).
Qed.

Lemma renderBody_totalSpp (fuel : nat) p sc (r : StandaloneRenderer E) :
  totalSpp (_status (snd (renderBody E fuel p sc r))) = totalSpp (_status r).
Proof.
  unfold renderBody.
  set (sc' := if isPresent (_parser r) OPT_OUTPUT_DIRECTORY
              then setOutputDirectory E (_outputDirectory r) sc else sc).
  cbv zeta. run.
  destruct (makeTraceable E sc') as [i|e]; [|reflexivity].
  destruct (negb (isPresent (_parser r) OPT_CHECKPOINTS)); cbv beta iota;
    match goal with |- context [resume E ?b sc' i ?r1] =>
      pose proof (resume_totalSpp b sc' i r1) as R;
      destruct (resume E b sc' i r1) as [[i2|e|] r2] end;
    cbn [fst snd] in *; try exact R;
    match goal with |- context [renderLoop E fuel 0 ?m sc' ?j ?t ?r3] =>
      pose proof (renderLoop_totalSpp fuel 0 m sc' j t r3) as L;
      destruct (renderLoop E fuel 0 m sc' j t r3) as [[i4|e|] r4] end;
    cbn [fst snd] in *; rewrite ?finish_totalSpp; rewrite L; exact R.
Qed.

(** X14. What [status()] shows after a call on a non-empty queue, however
    the call ends: when the front scene could not be loaded, the state
    is [STATE_LOADING] and the three sample counts are 0; when it was
    loaded, the total sample count is the [spp] of its renderer settings. *)
Theorem renderScene_status (fuel : nat) (r : StandaloneRenderer E) :
  match queuedScenes (_status r) with
  | [] => _status (snd (renderScene E fuel r)) = _status r
  | front :: rest =>
      let st := _status (snd (renderScene E fuel r)) in
      let failed :=
        state st = STATE_LOADING
        /\ currentSpp st = 0 /\ nextSpp st = 0 /\ totalSpp st = 0 in
      match Scene_load E front with
      | Ok loaded =>
          match loadResources E loaded with
          | Ok sc => totalSpp st = spp E sc
          | Raise _ => failed
          end
      | Raise _ => failed
      end
  end.
Proof.
  unfold renderScene. destruct (queuedScenes (_status r)) as [|front rest]; [done|].
  cbv zeta. run.
  destruct (Scene_load E front) as [sc|[what|]]; [|by repeat split..].
  destruct (loadResources E sc) as [sc1|[what|]]; [|by repeat split..].
  match goal with |- context [renderBody E fuel front sc1 ?r1] =>
    pose proof (renderBody_totalSpp fuel front sc1 r1) as B;
    destruct (renderBody E fuel front sc1 r1) as [[[]|[what|]|] r2] end;
    cbn in *; exact B.
Qed.

(** X15. Between scenes there is no frame buffer: when no scene is loaded
    before a call of [renderScene] and the call returns, no scene is loaded
    after it, and [frameBuffer] then returns [nullptr] and leaves
    [resolution] alone. *)
Theorem renderScene_leaves_idle (fuel : nat) (r : StandaloneRenderer E)
    (resolution : Vec2) (b : bool) :
  _scene r = None ->
  fst (renderScene E fuel r) = Done b ->
  _scene (snd (renderScene E fuel r)) = None
  /\ frameBuffer E (snd (renderScene E fuel r)) resolution = (Nullptr, resolution).
Proof.
  intros Hidle Hret.
  assert (Hnone : _scene (snd (renderScene E fuel r)) = None).
  { revert Hret. unfold renderScene.
    destruct (queuedScenes (_status r)) as [|front rest]; [done|].
    run.
    destruct (Scene_load E front) as [sc|[what|]]; try done.
    destruct (loadResources E sc) as [sc1|[what|]]; try done.
    match goal with |- context [renderBody E fuel front sc1 ?r1] =>
      destruct (renderBody E fuel front sc1 r1) as [[[]|[what|]|] r2] end; done. }
  split; [exact Hnone|]. unfold frameBuffer. by rewrite Hnone.
Qed.

End Facts.

Lemma renderScene_leaves_idle_witness :
  _scene (Sample.idle [mkPath "a.json"]) = None
  /\ frameBuffer Sample.sampleEnv
       (snd (renderScene Sample.sampleEnv 3 (Sample.idle [mkPath "a.json"])))
       (mkVec2 7 7)
     = (Nullptr, mkVec2 7 7).
Proof.
  split; [reflexivity|].
  exact (proj2 (renderScene_leaves_idle Sample.sampleEnv 3
                  (Sample.idle [mkPath "a.json"]) (mkVec2 7 7) true
                  eq_refl eq_refl)).
Defined.

End RenderSceneStatus.

(** ** The render loop without checkpoints *)

Module CheckpointFacts.
Import Shared Props Frame.
Import RenderSceneFacts.

Section Facts.
Variable E : Env.

Lemma last_cons {A} (l : list A) :
  forall a d : A, List.last (a :: l) d = List.last l a.
Proof.
  induction l as [|b l IH]; intros a d; [reflexivity|].
  change (List.last (a :: b :: l) d) with (List.last (b :: l) d).
  by rewrite (IH b d), (IH b a).
Qed.

(** X16. A checkpoint interval of 0 (or less) disables checkpoints: the
    render loop then writes to the log exactly one ["Completed n/max spp"]
    line for each pass that returns, in order, with the sample count the
    integrator reports after that pass, and nothing else.  So it never gets
    to the block that announces and saves a checkpoint: the interval stays
    as it is, and the integrator left in [_flattenedScene] and the one the
    loop ends with are those of the last pass. *)
Theorem renderLoop_no_checkpoint :
  forall (fuel round : nat) maxSpp sc i tot (r : StandaloneRenderer E),
    _checkpointInterval r <= 0 ->
    _checkpointInterval (snd (renderLoop E fuel round maxSpp sc i tot r))
    = _checkpointInterval r
    /\ _logStream (snd (renderLoop E fuel round maxSpp sc i tot r))
       = _logStream r
         ++ map (fun i' => completedLine maxSpp (integratorCurrentSpp E i'))
                (passesRun E fuel i)
    /\ _flattenedScene (snd (renderLoop E fuel round maxSpp sc i tot r))
       = List.last (map Some (passesRun E fuel i)) (_flattenedScene r)
    /\ forall i', fst (renderLoop E fuel round maxSpp sc i tot r) = Done i' ->
                  i' = List.last (passesRun E fuel i) i.
Proof.
  induction fuel as [|fuel IH]; intros round maxSpp sc i tot r Hoff;
    cbn [renderLoop passesRun]; destruct (done E i);
    try (cbn; rewrite app_nil_r; repeat split; by intros i' [=]).
  run. destruct (renderPass E i) as [i1|e].
  2:{ cbn. rewrite app_nil_r. by repeat split. }
  cbn [_checkpointInterval set_logStream set_flattenedScene set_status].
  replace (0 <? _checkpointInterval r) with false by (symmetry; apply Z.ltb_ge; lia).
  cbn [andb].
  match goal with |- context [renderLoop E fuel ?n maxSpp sc i1 tot ?r1] =>
    destruct (IH n maxSpp sc i1 tot r1 Hoff) as (Hi & Hl & Hf & Hd) end.
  split; [exact Hi|]. split; [|split].
  - rewrite Hl. cbn. by rewrite <- app_assoc.
  - rewrite Hf. cbn [map _flattenedScene]. by rewrite last_cons.
  - intros i' Hend. rewrite last_cons. by apply Hd.
Qed.

End Facts.

Lemma renderLoop_no_checkpoint_witness :
  _checkpointInterval (Sample.idle []) <= 0
  /\ _logStream (snd (renderLoop Sample.sampleEnv 3 0 2
                                 (Sample.mkScene (mkPath "a.json") 2)
                                 (0, 2) 0 (Sample.idle [])))
     = ["Completed 1/2 spp"; "Completed 2/2 spp"]
  /\ _flattenedScene (snd (renderLoop Sample.sampleEnv 3 0 2
                                      (Sample.mkScene (mkPath "a.json") 2)
                                      (0, 2) 0 (Sample.idle [])))
     = Some (2, 2).
Proof.
  pose proof (renderLoop_no_checkpoint Sample.sampleEnv 3 0 2
                (Sample.mkScene (mkPath "a.json") 2) (0, 2) 0 (Sample.idle [])
                (Z.le_refl 0)) as (_ & Hlog & Hfl & _).
  split; [discriminate|]. split; [exact Hlog|exact Hfl].
Defined.

Example renderLoop_two_passes :
  _logStream (snd (renderLoop Sample.sampleEnv 3 0 2 (Sample.mkScene (mkPath "a.json") 2)
                              (0, 2) 0 (Sample.idle [])))
  = ["Completed 1/2 spp"; "Completed 2/2 spp"].
Proof. reflexivity. Qed.

End CheckpointFacts.
